(** * Checkpoints and the training pass of the intro-to-pytorch notebooks

    A shallow embedding of the notebook cells that save and load a
    fully-connected network ("Saving and Loading Models") and of the
    training pass ("Training Neural Networks"), with the properties the
    specification states about them.

    Tensors hold 32-bit floats; saving and loading never compute with
    them, so an element is kept as its bit pattern, an integer.  Sizes are
    dimension counts (the entries of a [torch.Size]), never negative. *)

From stdpp Require Import base strings pretty list gmap.
From Stdlib Require Import ZArith Lia Ascii.

Open Scope string_scope.
Open Scope list_scope.

(** ** Tensors *)

(** [torch.Size]: the list of dimensions. *)
Abbreviation Size := (list N).

Record Tensor := mkTensor { shape : Size; data : list Z }.

Definition numel (s : Size) : N := fold_right N.mul 1%N s.

(** [input_param.shape != param.shape] compares the two sizes. *)
Definition size_eqb (s1 s2 : Size) : bool := bool_decide (s1 = s2).

(** [param.copy_(input_param)], used when both shapes agree: the elements of
    the destination are overwritten in place, its shape stays. *)
Definition copy_ (param input_param : Tensor) : Tensor :=
  {| shape := shape param; data := data input_param |}.

(** The random initial values a constructor draws: the element at a
    position of the parameter with a given name. *)
Definition Init := string → nat → Z.

Definition fresh (init : Init) (name : string) (s : Size) : Tensor :=
  {| shape := s; data := map (init name) (seq 0 (N.to_nat (numel s))) |}.

(** ** Modules *)

(** [nn.Linear(in_features, out_features)]: a weight of shape
    (out_features, in_features) and a bias of shape (out_features,), as the
    notebook prints them and the size-mismatch report shows. *)
Record Linear := mkLinear {
  in_features : N;
  out_features : N;
  weight : Tensor;
  bias : Tensor
}.

Definition nn_Linear (init : Init) (name : string) (i o : N) : Linear :=
  {| in_features := i; out_features := o;
     weight := fresh init (name +:+ ".weight") [o; i];
     bias := fresh init (name +:+ ".bias") [o] |}.

(** The network object: a [ModuleList] of hidden layers and the output
    layer.  Its third child, [Dropout(p=0.5)], has no parameters. *)
Record Net := mkNet {
  hidden_layers : list Linear;
  output : Linear
}.

Fixpoint build_hidden (init : Init) (idx : nat) (prev : N) (hs : list N)
  : list Linear :=
  match hs with
  | [] => []
  | h :: hs' =>
      nn_Linear init ("hidden_layers." +:+ pretty idx) prev h
        :: build_hidden init (S idx) h hs'
  end.

(** Modelled from the spec: the class [fc_model.Network], whose file is not
    among the sources.  The architecture descriptor is (input size, output
    size, ordered hidden widths); layer i maps width[i-1] to width[i], where
    the widths are the input size, the hidden widths and the output size.
    The printed module tree of the notebook shows this for three hidden
    layers. *)
Definition Network (init : Init) (input_size output_size : N)
    (hidden : list N) : Net :=
  {| hidden_layers := build_hidden init 0 input_size hidden;
     output := nn_Linear init "output" (List.last hidden input_size)
                 output_size |}.

(** ** State dicts *)

(** An [OrderedDict] from parameter names to tensors. *)
Abbreviation StateDict := (list (string * Tensor)).

Fixpoint sd_get (sd : StateDict) (key : string) : option Tensor :=
  match sd with
  | [] => None
  | (k, t) :: sd' => if bool_decide (k = key) then Some t else sd_get sd' key
  end.

Definition keys (sd : StateDict) : list string := map fst sd.

Definition linear_state (prefix : string) (l : Linear) : StateDict :=
  [(prefix +:+ "weight", weight l); (prefix +:+ "bias", bias l)].

Fixpoint modulelist_state (prefix : string) (idx : nat) (ls : list Linear)
  : StateDict :=
  match ls with
  | [] => []
  | l :: ls' =>
      linear_state (prefix +:+ pretty idx +:+ ".") l
        ++ modulelist_state prefix (S idx) ls'
  end.

(** [model.state_dict()]: the parameters in module order, named by their
    path in the module tree (the notebook prints
    ['hidden_layers.0.weight', 'hidden_layers.0.bias', ..., 'output.weight',
    'output.bias']). *)
Definition state_dict (m : Net) : StateDict :=
  modulelist_state "hidden_layers." 0 (hidden_layers m)
    ++ linear_state "output." (output m).

(** ** Exceptions *)

(** One line of the report of [load_state_dict].  A size mismatch names the
    key, the shape in the checkpoint and the shape in the current model. *)
Inductive ErrorMsg :=
| SizeMismatch (key : string) (ckpt_shape model_shape : Size)
| MissingKeys (ks : list string)
| UnexpectedKeys (ks : list string).

Inductive PyError :=
| FileNotFoundError (path : string)
| KeyError (key : string)
| TypeError
| RuntimeError (msgs : list ErrorMsg).

Definition Result (A : Type) : Type := PyError + A.

Definition bind {A B : Type} (r : Result A) (k : A → Result B) : Result B :=
  match r with
  | inl e => inl e
  | inr a => k a
  end.

Notation "'let?' x ':=' e 'in' k" := (bind e (λ x, k))
  (at level 10, x name, e at level 100, k at level 200).

(** ** Module.load_state_dict *)

(** [model.load_state_dict(state_dict)] is a routine of the tensor library,
    called with its default [strict=True].  It walks the parameters of the
    model in module order.  For a key present in the state dict it compares
    the shapes: on a mismatch it appends a message ("size mismatch for
    <key>: copying a param with shape ... from checkpoint, the shape in
    current model is ...") and goes on to the next parameter, otherwise it
    copies the stored tensor into the parameter in place.  A key that is
    absent is recorded as missing.  Only after the walk are the messages
    looked at: the traceback kept in the notebook shows the end of the
    routine, [if len(error_msgs) > 0: raise RuntimeError(...)] followed by
    [return _IncompatibleKeys(missing_keys, unexpected_keys)], and the
    report of the failing cell lists seven mismatches at once. *)

(** The two lists the walk appends to. *)
Record LoadLog := mkLog {
  missing_keys : list string;
  error_msgs : list ErrorMsg
}.

Definition empty_log : LoadLog := {| missing_keys := []; error_msgs := [] |}.

Definition load_param (sd : StateDict) (key : string) (param : Tensor)
    (log : LoadLog) : Tensor * LoadLog :=
  match sd_get sd key with
  | Some input_param =>
      if size_eqb (shape input_param) (shape param)
      then (copy_ param input_param, log)
      else (param,
            {| missing_keys := missing_keys log;
               error_msgs := error_msgs log ++
                 [SizeMismatch key (shape input_param) (shape param)] |})
  | None =>
      (param,
       {| missing_keys := missing_keys log ++ [key];
          error_msgs := error_msgs log |})
  end.

Definition load_linear (sd : StateDict) (prefix : string) (l : Linear)
    (log : LoadLog) : Linear * LoadLog :=
  let '(w, log1) := load_param sd (prefix +:+ "weight") (weight l) log in
  let '(b, log2) := load_param sd (prefix +:+ "bias") (bias l) log1 in
  ({| in_features := in_features l; out_features := out_features l;
      weight := w; bias := b |}, log2).

Fixpoint load_modulelist (sd : StateDict) (prefix : string) (idx : nat)
    (ls : list Linear) (log : LoadLog) : list Linear * LoadLog :=
  match ls with
  | [] => ([], log)
  | l :: ls' =>
      let '(l1, log1) :=
        load_linear sd (prefix +:+ pretty idx +:+ ".") l log in
      let '(ls1, log2) := load_modulelist sd prefix (S idx) ls' log1 in
      (l1 :: ls1, log2)
  end.

Record IncompatibleKeys := mkIncompatibleKeys {
  ik_missing_keys : list string;
  ik_unexpected_keys : list string
}.

(** Keys of the state dict that name no parameter of the model. *)
Definition unexpected_keys_of (m : Net) (sd : StateDict) : list string :=
  filter (λ k, k ∉ keys (state_dict m)) (keys sd).

(** The final report: the messages of the walk, with the unexpected keys
    and then the missing keys inserted in front. *)
Definition final_msgs (missing unexpected : list string)
    (msgs : list ErrorMsg) : list ErrorMsg :=
  (if missing is [] then [] else [MissingKeys missing])
    ++ (if unexpected is [] then [] else [UnexpectedKeys unexpected])
    ++ msgs.

(** The end of the routine: raise if there is any message, else return the
    incompatible keys. *)
Definition raise_or_return (missing unexpected : list string)
    (msgs : list ErrorMsg) : Result IncompatibleKeys :=
  let error_msgs := final_msgs missing unexpected msgs in
  if error_msgs is [] then inr (mkIncompatibleKeys missing unexpected)
  else inl (RuntimeError error_msgs).

(** The model is updated in place, so the call yields the model as it is
    left together with the outcome, also when the outcome is an
    exception. *)
Definition load_state_dict (m : Net) (sd : StateDict)
  : Net * Result IncompatibleKeys :=
  let '(hl, log1) :=
    load_modulelist sd "hidden_layers." 0 (hidden_layers m) empty_log in
  let '(out, log2) := load_linear sd "output." (output m) log1 in
  ({| hidden_layers := hl; output := out |},
   raise_or_return (missing_keys log2) (unexpected_keys_of m sd)
     (error_msgs log2)).

(** ** Pickled records and files *)

(** The values a checkpoint dictionary holds. *)
Inductive PyVal :=
| PInt (n : N)
| PList (l : list N)
| POrderedDict (sd : StateDict).

(** A Python [dict] literal, in insertion order. *)
Abbreviation PyDict := (list (string * PyVal)).

Fixpoint dict_get (d : PyDict) (key : string) : Result PyVal :=
  match d with
  | [] => inl (KeyError key)
  | (k, v) :: d' => if bool_decide (k = key) then inr v else dict_get d' key
  end.

Definition as_int (v : PyVal) : Result N :=
  match v with PInt n => inr n | _ => inl TypeError end.

Definition as_list (v : PyVal) : Result (list N) :=
  match v with PList l => inr l | _ => inl TypeError end.

Definition as_state_dict (v : PyVal) : Result StateDict :=
  match v with POrderedDict sd => inr sd | _ => inl TypeError end.

(** [torch.save(obj, path)] pickles the object into the file: the file
    holds a copy with no reference back to the model. *)
Definition torch_save (obj : PyDict) (path : string)
    (fs : gmap string PyDict) : gmap string PyDict :=
  <[path := obj]> fs.

Definition torch_load (fs : gmap string PyDict) (path : string)
  : Result PyDict :=
  match fs !! path with
  | Some obj => inr obj
  | None => inl (FileNotFoundError path)
  end.

(** ** The notebook cells *)

(** The cell that builds the checkpoint dictionary of the global [model]. *)
Definition checkpoint (model : Net) : PyDict :=
  [("input_size", PInt 784%N);
   ("output_size", PInt 10%N);
   ("hidden_layers", PList (map out_features (hidden_layers model)));
   ("state_dict", POrderedDict (state_dict model))].

(** [torch.save(checkpoint, 'checkpoint.pth')] with the path left open. *)
Definition save_checkpoint (model : Net) (path : string)
    (fs : gmap string PyDict) : gmap string PyDict :=
  torch_save (checkpoint model) path fs.

(** The constructor as the interpreter calls it: its arguments are
    objects, and a size that is no integer, or hidden sizes that are no
    list, make it raise a TypeError. *)
Definition Network_call (init : Init) (v_in v_out v_hidden : PyVal)
  : Result Net :=
  let? input_size := as_int v_in in
  let? output_size := as_int v_out in
  let? hidden := as_list v_hidden in
  inr (Network init input_size output_size hidden).

(** [load_checkpoint(filepath)].  The three arguments of
    [fc_model.Network] are read first, then the model is built, then the
    state dict is read and loaded; the model is returned only if nothing
    was raised. *)
Definition load_checkpoint (init : Init) (fs : gmap string PyDict)
    (filepath : string) : Result Net :=
  let? checkpoint := torch_load fs filepath in
  let? v_in := dict_get checkpoint "input_size" in
  let? v_out := dict_get checkpoint "output_size" in
  let? v_hidden := dict_get checkpoint "hidden_layers" in
  let? model := Network_call init v_in v_out v_hidden in
  let? v_sd := dict_get checkpoint "state_dict" in
  let? sd := as_state_dict v_sd in
  let '(model', outcome) := load_state_dict model sd in
  let? _ := outcome in
  inr model'.

(** The descriptor a model was built from, read off its layers. *)
Definition layers (m : Net) : list Linear := hidden_layers m ++ [output m].

Definition model_input_size (m : Net) : N :=
  match hidden_layers m with
  | l :: _ => in_features l
  | [] => in_features (output m)
  end.

Definition model_output_size (m : Net) : N := out_features (output m).

Definition model_hidden_sizes (m : Net) : list N :=
  map out_features (hidden_layers m).

(** width[0..k]: the input width, the hidden widths and the output width. *)
Definition widths (m : Net) : list N :=
  model_input_size m :: map out_features (layers m).

(** The two parameter names of a [Linear]. *)
Definition is_param_name (s : string) : Prop := s = "weight" ∨ s = "bias".

(** The name of a parameter of the [idx]-th module of a list. *)
Definition item_key (prefix : string) (idx : nat) (s : string) : string :=
  (prefix +:+ pretty idx +:+ ".") +:+ s.

(** ** The walk on the flat list of parameters *)

(** The walk of [load_state_dict] over the named parameters of a model,
    in the order of its state dict. *)
Fixpoint load_entries (sd : StateDict) (es : StateDict) (log : LoadLog)
  : StateDict * LoadLog :=
  match es with
  | [] => ([], log)
  | (k, p) :: es' =>
      let '(t, log1) := load_param sd k p log in
      let '(es1, log2) := load_entries sd es' log1 in
      ((k, t) :: es1, log2)
  end.

(** Names and shapes of a parameter set. *)
Definition signature (sd : StateDict) : list (string * Size) :=
  map (λ kp, (kp.1, shape kp.2)) sd.

(** What the walk does at one named parameter: the tensor it leaves, the
    message it appends, the key it records as missing. *)
Definition load_entry (sd : StateDict) (kp : string * Tensor)
  : string * Tensor :=
  (kp.1,
   match sd_get sd kp.1 with
   | Some input_param =>
       if size_eqb (shape input_param) (shape kp.2)
       then copy_ kp.2 input_param else kp.2
   | None => kp.2
   end).

Definition mismatch_msgs (sd : StateDict) (ks : string * Size)
  : list ErrorMsg :=
  match sd_get sd ks.1 with
  | Some input_param =>
      if size_eqb (shape input_param) ks.2 then []
      else [SizeMismatch ks.1 (shape input_param) ks.2]
  | None => []
  end.

Definition missing_of (sd : StateDict) (key : string) : list string :=
  match sd_get sd key with
  | Some _ => []
  | None => [key]
  end.

(** Two layers of the same sizes and parameter shapes. *)
Definition same_sizes (l l' : Linear) : Prop :=
  in_features l' = in_features l ∧ out_features l' = out_features l
  ∧ shape (weight l') = shape (weight l) ∧ shape (bias l') = shape (bias l).

(** ** Well-formed models *)

Definition linear_ok (l : Linear) : Prop :=
  shape (weight l) = [out_features l; in_features l]
  ∧ shape (bias l) = [out_features l].

(** Every layer has the shapes of its sizes and takes the width the layer
    before it produces. *)
Fixpoint chained (prev : N) (ls : list Linear) : Prop :=
  match ls with
  | [] => True
  | l :: ls' => in_features l = prev ∧ linear_ok l ∧ chained (out_features l) ls'
  end.

Definition wf_model (m : Net) : Prop := chained (model_input_size m) (layers m).

(** [optimizer.step()] on the model: every parameter gets new elements,
    computed from its name and its old elements; shapes and layer sizes
    stay. *)
Definition step_tensor (upd : string → list Z → list Z) (key : string)
    (t : Tensor) : Tensor :=
  {| shape := shape t; data := upd key (data t) |}.

Definition step_linear (upd : string → list Z → list Z) (prefix : string)
    (l : Linear) : Linear :=
  {| in_features := in_features l; out_features := out_features l;
     weight := step_tensor upd (prefix +:+ "weight") (weight l);
     bias := step_tensor upd (prefix +:+ "bias") (bias l) |}.

Definition optimizer_step (upd : string → list Z → list Z) (m : Net) : Net :=
  {| hidden_layers :=
       imap (λ i, step_linear upd ("hidden_layers." +:+ pretty i +:+ "."))
         (hidden_layers m);
     output := step_linear upd "output." (output m) |}.

(** The models a notebook session can hold: built by the constructor, then
    trained and loaded into any number of times. *)
Inductive reachable : Net → Prop :=
| reach_new init i o hs : reachable (Network init i o hs)
| reach_step upd m : reachable m → reachable (optimizer_step upd m)
| reach_load m sd : reachable m → reachable (load_state_dict m sd).1.

(** ** Descriptors *)

(** The architecture descriptor: input size, output size, hidden widths. *)
Definition Descriptor : Type := N * N * list N.

Definition descriptor (m : Net) : Descriptor :=
  (model_input_size m, model_output_size m, model_hidden_sizes m).

(** The descriptor a checkpoint dictionary holds, read the way
    [load_checkpoint] reads it. *)
Definition record_descriptor (d : PyDict) : Result Descriptor :=
  let? v_in := dict_get d "input_size" in
  let? v_out := dict_get d "output_size" in
  let? v_hidden := dict_get d "hidden_layers" in
  let? input_size := as_int v_in in
  let? output_size := as_int v_out in
  let? hidden := as_list v_hidden in
  inr (input_size, output_size, hidden).

(** The dictionary without one of its keys. *)
Definition dict_remove (key : string) (d : PyDict) : PyDict :=
  filter (λ kv, kv.1 ≠ key) d.

(** ** The training pass *)

(** The notebook trains with
      [optimizer.zero_grad(); output = model(images);
       loss = criterion(output, labels); loss.backward(); optimizer.step()]
    for each batch.  The autograd engine and the optimizer belong to the
    library; what the notebook says of them is modelled: a backward pass
    adds the gradient of its loss to the gradient stored with the
    parameters ("the gradients are accumulated"), [zero_grad] sets a stored
    gradient to zero, and [step] updates the parameters from the stored
    gradient.  Gradients are values of a type with an addition and a zero;
    parameters and batches are left abstract. *)
Section training.

Context {G P B : Type}.
Context (gzero : G) (gadd : G → G → G).
(** The gradient of [criterion(model(images), labels)] in the parameters. *)
Context (grad_loss : P → B → G).
(** The update rule of the optimizer. *)
Context (update : P → G → P).

Record TrainState := mkTrainState {
  params : P;
  grad : option G   (* [None] until the first backward pass *)
}.

Definition zero_grad (st : TrainState) : TrainState :=
  {| params := params st;
     grad := match grad st with Some _ => Some gzero | None => None end |}.

Definition backward (g : G) (st : TrainState) : TrainState :=
  {| params := params st;
     grad := match grad st with
             | Some acc => Some (gadd acc g)
             | None => Some g
             end |}.

Definition step (st : TrainState) : TrainState :=
  match grad st with
  | Some g => {| params := update (params st) g; grad := grad st |}
  | None => st
  end.

(** The state when [optimizer.step()] is reached in the pass over one
    batch; [reset] tells whether the pass starts with [zero_grad]. *)
Definition before_step (reset : bool) (st : TrainState) (batch : B)
  : TrainState :=
  let st1 := if reset then zero_grad st else st in
  backward (grad_loss (params st1) batch) st1.

Definition training_pass (reset : bool) (st : TrainState) (batch : B)
  : TrainState :=
  step (before_step reset st batch).

Definition train (reset : bool) (st : TrainState) (batches : list B)
  : TrainState :=
  fold_left (training_pass reset) batches st.

(** The gradient of the loss of each batch, at the parameters its pass
    starts from. *)
Fixpoint batch_grads (reset : bool) (st : TrainState) (batches : list B)
  : list G :=
  match batches with
  | [] => []
  | b :: bs =>
      grad_loss (params st) b :: batch_grads reset (training_pass reset st b) bs
  end.

(** The sum of a list of gradients, in the order they were computed. *)
Definition gsum (gs : list G) : option G :=
  match gs with
  | [] => None
  | g :: gs' => Some (fold_left gadd gs' g)
  end.

End training.

(** Two sources of initial values, used in the examples. *)
Definition init0 : Init := λ _ i, Z.of_nat i.
Definition init1 : Init := λ _ i, (Z.of_nat i + 7)%Z.

(** ** Files that hold any pickled object *)

(** The notebook writes two kinds of object to ['checkpoint.pth']: the bare
    state dict, [torch.save(model.state_dict(), 'checkpoint.pth')], and
    later the checkpoint dictionary. *)
Inductive PyObj :=
| ObjStateDict (sd : StateDict)
| ObjRecord (d : PyDict).

Definition torch_save_any (obj : PyObj) (path : string)
    (fs : gmap string PyObj) : gmap string PyObj :=
  <[path := obj]> fs.

Definition torch_load_any (fs : gmap string PyObj) (path : string)
  : Result PyObj :=
  match fs !! path with
  | Some obj => inr obj
  | None => inl (FileNotFoundError path)
  end.

(** What a subscript [obj[key]] yields: a value of a dictionary or a tensor
    of a state dict. *)
Inductive PyItem :=
| ItemVal (v : PyVal)
| ItemTensor (t : Tensor).

Definition getitem (obj : PyObj) (key : string) : Result PyItem :=
  match obj with
  | ObjRecord d => let? v := dict_get d key in inr (ItemVal v)
  | ObjStateDict sd =>
      match sd_get sd key with
      | Some t => inr (ItemTensor t)
      | None => inl (KeyError key)
      end
  end.

(** A tensor of floats is no size, no list of sizes and no state dict. *)
Definition item_val (it : PyItem) : Result PyVal :=
  match it with
  | ItemVal v => inr v
  | ItemTensor _ => inl TypeError
  end.

(** [load_checkpoint(filepath)] on a file that may hold either object. *)
Definition load_checkpoint_any (init : Init) (fs : gmap string PyObj)
    (filepath : string) : Result Net :=
  let? checkpoint := torch_load_any fs filepath in
  let? a_in := getitem checkpoint "input_size" in
  let? a_out := getitem checkpoint "output_size" in
  let? a_hidden := getitem checkpoint "hidden_layers" in
  let? model :=
    (let? v_in := item_val a_in in
     let? v_out := item_val a_out in
     let? v_hidden := item_val a_hidden in
     Network_call init v_in v_out v_hidden) in
  let? a_sd := getitem checkpoint "state_dict" in
  let? sd := bind (item_val a_sd) as_state_dict in
  let '(model', outcome) := load_state_dict model sd in
  let? _ := outcome in
  inr model'.

(** [fc_model.train(model, ...)] as far as the parameters go: a sequence of
    optimizer steps. *)
Definition fit (upds : list (string → list Z → list Z)) (m : Net) : Net :=
  fold_left (λ m upd, optimizer_step upd m) upds m.

(** The layer sizes the printed module tree shows. *)
Definition features (l : Linear) : N * N := (in_features l, out_features l).

(** The shape recorded under a name in a list of names and shapes. *)
Fixpoint sig_get (sg : list (string * Size)) (key : string) : option Size :=
  match sg with
  | [] => None
  | (k, s) :: sg' => if bool_decide (k = key) then Some s else sig_get sg' key
  end.

(** ** The training loop over epochs *)

(** The cell
      [for e in range(epochs):
           running_loss = 0
           for images, labels in trainloader:
               ... the training pass ...
               running_loss += loss.item()
           else:
               print(running_loss/len(trainloader))].
    The loader is built with [shuffle=True]: every pass over it yields its
    batches in an order of its own, while [len(trainloader)] is fixed.
    Losses are values of a type with an addition; the division by the
    length raises ZeroDivisionError when the length is 0. *)
Inductive ArithError := ZeroDivisionError.

Section epochs.

Context {G P B L : Type}.
Context (gzero : G) (gadd : G → G → G).
Context (grad_loss : P → B → G) (update : P → G → P).
(** [criterion(model(images), labels).item()] at given parameters. *)
Context (loss : P → B → L).
Context (lzero : L) (ladd : L → L → L) (ldiv : L → nat → L).

Record Loader := mkLoader {
  loader_len : nat;
  loader_iter : nat → list B   (* the batches of the e-th pass, in order *)
}.

(** The body of the inner loop: the training pass, then the loss of the
    batch, computed before the step, is added to [running_loss]. *)
Definition batch_pass (acc : @TrainState G P * L) (batch : B)
  : @TrainState G P * L :=
  (training_pass gzero gadd grad_loss update true acc.1 batch,
   ladd acc.2 (loss (params acc.1) batch)).

Definition run_epoch (st : @TrainState G P) (batches : list B)
  : @TrainState G P * L :=
  fold_left batch_pass batches (st, lzero).

Definition mean_loss (running_loss : L) (len : nat) : ArithError + L :=
  if decide (len = 0) then inl ZeroDivisionError
  else inr (ldiv running_loss len).

(** The outer loop from epoch [e] on, with the lines printed so far. *)
Fixpoint run_epochs (loader : Loader) (e epochs : nat) (st : @TrainState G P)
    (printed : list L) : ArithError + (@TrainState G P * list L) :=
  match epochs with
  | 0 => inr (st, printed)
  | S n =>
      let '(st', running_loss) := run_epoch st (loader_iter loader e) in
      match mean_loss running_loss (loader_len loader) with
      | inl err => inl err
      | inr line => run_epochs loader (S e) n st' (printed ++ [line])
      end
  end.

Definition training_loop (loader : Loader) (epochs : nat)
    (st : @TrainState G P) : ArithError + (@TrainState G P * list L) :=
  run_epochs loader 0 epochs st [].

(** Gradient descent as the notebook writes it, W' = W - alpha dl/dW: every
    step uses the gradient of its own batch at the current parameters. *)
Definition descent (p : P) (batches : list B) : P :=
  fold_left (λ p b, update p (grad_loss p b)) batches p.

(** All batches of the first [epochs] passes over the loader, in order. *)
Definition all_batches (loader : Loader) (epochs : nat) : list B :=
  concat (map (loader_iter loader) (seq 0 epochs)).

End epochs.

(** * Parameter names *)

Section names.

#[local] Abbreviation list_ascii_of_string :=
  Stdlib.Strings.String.list_ascii_of_string.

Lemma list_of_append (s1 s2 : string) :
  list_ascii_of_string (s1 +:+ s2)
  = list_ascii_of_string s1 ++ list_ascii_of_string s2.
Proof.
  induction s1 as [|c s1 IH]; [done|].
  unfold String.app in *. simpl. by rewrite IH.
Qed.

Lemma list_of_string_inj (s1 s2 : string) :
  list_ascii_of_string s1 = list_ascii_of_string s2 → s1 = s2.
Proof.
  intros H.
  rewrite <-(Stdlib.Strings.String.string_of_list_ascii_of_string s1),
    <-(Stdlib.Strings.String.string_of_list_ascii_of_string s2).
  by rewrite H.
Qed.

Lemma item_key_inj (prefix : string) (i j : nat) (s s' : string) :
  is_param_name s → is_param_name s' →
  item_key prefix i s = item_key prefix j s' → i = j ∧ s = s'.
Proof.
  intros Hs Hs' Heq. unfold item_key in Heq.
  apply (f_equal list_ascii_of_string) in Heq.
  rewrite !list_of_append in Heq.
  rewrite <-!(assoc_L (++)) in Heq.
  apply (inj (app _)) in Heq.
  assert (Hnat : list_ascii_of_string (pretty i)
                 = list_ascii_of_string (pretty j) → i = j).
  { intros H%list_of_string_inj. by apply (inj pretty) in H. }
  destruct Hs as [-> | ->], Hs' as [-> | ->]; simpl in Heq.
  - apply app_inj_2 in Heq as [Hp _]; [auto|done].
  - exfalso.
    change (list_ascii_of_string (pretty i)
              ++ ["."; "w"; "e"; "i"; "g"; "h"]%char ++ ["t"%char]
            = list_ascii_of_string (pretty j)
              ++ ["."; "b"; "i"; "a"]%char ++ ["s"%char]) in Heq.
    rewrite !(assoc_L (++)) in Heq.
    apply app_inj_2 in Heq as [_ Hc]; [discriminate|done].
  - exfalso.
    change (list_ascii_of_string (pretty i)
              ++ ["."; "b"; "i"; "a"]%char ++ ["s"%char]
            = list_ascii_of_string (pretty j)
              ++ ["."; "w"; "e"; "i"; "g"; "h"]%char ++ ["t"%char]) in Heq.
    rewrite !(assoc_L (++)) in Heq.
    apply app_inj_2 in Heq as [_ Hc]; [discriminate|done].
  - apply app_inj_2 in Heq as [Hp _]; [auto|done].
Qed.

Lemma output_key_not_hidden (i : nat) (s s' : string) :
  "output." +:+ s ≠ item_key "hidden_layers." i s'.
Proof.
  intros Heq. unfold item_key in Heq.
  apply (f_equal list_ascii_of_string) in Heq.
  rewrite !list_of_append in Heq. simpl in Heq. discriminate.
Qed.

Lemma output_keys_distinct : "output." +:+ "weight" ≠ "output." +:+ "bias".
Proof. intros H%(inj (String.app _)). discriminate. Qed.

Lemma keys_app (sd1 sd2 : StateDict) : keys (sd1 ++ sd2) = keys sd1 ++ keys sd2.
Proof. apply map_app. Qed.

Lemma keys_modulelist (prefix : string) (ls : list Linear) (idx : nat) :
  keys (modulelist_state prefix idx ls)
  = flat_map (λ i, [item_key prefix i "weight"; item_key prefix i "bias"])
      (seq idx (length ls)).
Proof.
  revert idx. induction ls as [|l ls IH]; intros idx; [done|].
  simpl. by rewrite IH.
Qed.

Lemma keys_state_dict (m : Net) :
  keys (state_dict m)
  = flat_map (λ i, [item_key "hidden_layers." i "weight";
                    item_key "hidden_layers." i "bias"])
      (seq 0 (length (hidden_layers m)))
    ++ ["output.weight"; "output.bias"].
Proof. unfold state_dict. by rewrite keys_app, keys_modulelist. Qed.

Lemma in_keys_modulelist (prefix : string) (ls : list Linear) (idx : nat)
    (k : string) :
  k ∈ keys (modulelist_state prefix idx ls) →
  ∃ (i : nat) (s : string),
    (idx ≤ i)%nat ∧ is_param_name s ∧ k = item_key prefix i s.
Proof.
  rewrite keys_modulelist. intros Hin.
  apply list_elem_of_In, in_flat_map in Hin as (i & Hi & Hk).
  apply in_seq in Hi. simpl in Hk.
  destruct Hk as [<- | [<- | []]]; exists i.
  - exists "weight". split; [lia|]. split; [by left|done].
  - exists "bias". split; [lia|]. split; [by right|done].
Qed.

Lemma NoDup_keys_modulelist (prefix : string) (ls : list Linear) (idx : nat) :
  NoDup (keys (modulelist_state prefix idx ls)).
Proof.
  revert idx. induction ls as [|l ls IH]; intros idx; [constructor|].
  simpl. fold (item_key prefix idx "weight") (item_key prefix idx "bias").
  constructor; [|constructor; [|apply IH]].
  - intros [Heq | Hin]%elem_of_cons.
    + apply item_key_inj in Heq as [_ ?]; [done|by left|by right].
    + apply in_keys_modulelist in Hin as (i & s & Hi & Hs & Heq).
      apply item_key_inj in Heq as [? _]; [lia|by left|done].
  - intros Hin.
    apply in_keys_modulelist in Hin as (i & s & Hi & Hs & Heq).
    apply item_key_inj in Heq as [? _]; [lia|by right|done].
Qed.

Lemma NoDup_keys_state_dict (m : Net) : NoDup (keys (state_dict m)).
Proof.
  unfold state_dict. rewrite keys_app. apply NoDup_app. split_and!.
  - apply NoDup_keys_modulelist.
  - intros k Hin Hout.
    apply in_keys_modulelist in Hin as (i & s & _ & _ & ->).
    simpl in Hout. apply elem_of_cons in Hout as [Heq | Hout].
    + by apply eq_sym, output_key_not_hidden in Heq.
    + apply elem_of_cons in Hout as [Heq | Hout].
      * by apply eq_sym, output_key_not_hidden in Heq.
      * by apply elem_of_nil in Hout.
  - simpl. constructor; [|constructor; [|constructor]].
    + intros [Heq | Hin]%elem_of_cons.
      * by apply output_keys_distinct.
      * by apply elem_of_nil in Hin.
    + by intros ?%elem_of_nil.
Qed.

End names.

(** * The walk of load_state_dict *)

Section walk.

Context (sd : StateDict).

Lemma load_entries_spec (es : StateDict) (log : LoadLog) :
  load_entries sd es log
  = (map (load_entry sd) es,
     {| missing_keys := missing_keys log ++ flat_map (missing_of sd) (keys es);
        error_msgs :=
          error_msgs log ++ flat_map (mismatch_msgs sd) (signature es) |}).
Proof.
  revert log. induction es as [|[k p] es IH]; intros log.
  - simpl. rewrite !app_nil_r. by destruct log.
  - simpl. unfold load_param, load_entry, mismatch_msgs, missing_of. simpl.
    destruct (sd_get sd k) as [t|]; [destruct (size_eqb (shape t) (shape p))|];
      rewrite IH; simpl; by rewrite <-?(assoc_L (++)).
Qed.

Lemma load_entries_app (es1 es2 : StateDict) (log : LoadLog) :
  load_entries sd (es1 ++ es2) log
  = let '(a, log1) := load_entries sd es1 log in
    let '(b, log2) := load_entries sd es2 log1 in
    (a ++ b, log2).
Proof.
  rewrite !load_entries_spec. simpl.
  unfold signature, keys.
  by rewrite !map_app, !flat_map_app, !(assoc_L (++)).
Qed.

Lemma load_linear_entries (prefix : string) (l : Linear) (log : LoadLog) :
  load_entries sd (linear_state prefix l) log
  = (linear_state prefix (load_linear sd prefix l log).1,
     (load_linear sd prefix l log).2).
Proof.
  unfold load_linear, linear_state. simpl.
  destruct (load_param sd (prefix +:+ "weight") (weight l) log) as [w log1].
  by destruct (load_param sd (prefix +:+ "bias") (bias l) log1) as [b log2].
Qed.

Lemma load_modulelist_entries (prefix : string) (ls : list Linear)
    (idx : nat) (log : LoadLog) :
  load_entries sd (modulelist_state prefix idx ls) log
  = (modulelist_state prefix idx (load_modulelist sd prefix idx ls log).1,
     (load_modulelist sd prefix idx ls log).2).
Proof.
  revert idx log. induction ls as [|l ls IH]; intros idx log; [done|].
  cbn [modulelist_state load_modulelist].
  rewrite load_entries_app, load_linear_entries.
  destruct (load_linear sd (prefix +:+ pretty idx +:+ ".") l log)
    as [l1 log1]; cbn [fst snd].
  rewrite IH.
  by destruct (load_modulelist sd prefix (S idx) ls log1) as [ls1 log2].
Qed.

(** The tree walk of a model is the flat walk of its state dict. *)
Lemma load_state_dict_entries (m : Net) :
  ∃ log, load_entries sd (state_dict m) empty_log
         = (state_dict (load_state_dict m sd).1, log)
       ∧ (load_state_dict m sd).2
         = raise_or_return (missing_keys log) (unexpected_keys_of m sd)
             (error_msgs log).
Proof.
  unfold state_dict at 1, load_state_dict.
  rewrite load_entries_app, load_modulelist_entries.
  destruct (load_modulelist sd "hidden_layers." 0 (hidden_layers m) empty_log)
    as [hl log1]; cbn [fst snd].
  rewrite load_linear_entries.
  destruct (load_linear sd "output." (output m) log1) as [out log2].
  cbn [fst snd]. by exists log2.
Qed.

(** What a call leaves in the model and what it answers. *)
Lemma load_state_dict_spec (m : Net) :
  state_dict (load_state_dict m sd).1 = map (load_entry sd) (state_dict m)
  ∧ (load_state_dict m sd).2
    = raise_or_return (flat_map (missing_of sd) (keys (state_dict m)))
        (unexpected_keys_of m sd)
        (flat_map (mismatch_msgs sd) (signature (state_dict m))).
Proof.
  destruct (load_state_dict_entries m) as (log & Hwalk & Hout).
  rewrite load_entries_spec in Hwalk. simpl in Hwalk.
  injection Hwalk as Hsd Hlog. subst log. by rewrite Hout, Hsd.
Qed.

Lemma load_param_shape (key : string) (p : Tensor) (log : LoadLog) :
  shape (load_param sd key p log).1 = shape p.
Proof.
  unfold load_param. destruct (sd_get sd key) as [t|]; [|done].
  by destruct (size_eqb (shape t) (shape p)).
Qed.

Lemma load_linear_same (prefix : string) (l : Linear) (log : LoadLog) :
  same_sizes l (load_linear sd prefix l log).1.
Proof.
  unfold load_linear.
  pose proof (load_param_shape (prefix +:+ "weight") (weight l) log) as Hw.
  destruct (load_param sd (prefix +:+ "weight") (weight l) log) as [w log1].
  pose proof (load_param_shape (prefix +:+ "bias") (bias l) log1) as Hb.
  destruct (load_param sd (prefix +:+ "bias") (bias l) log1) as [b log2].
  by repeat split.
Qed.

Lemma load_modulelist_same (prefix : string) (ls : list Linear) (idx : nat)
    (log : LoadLog) :
  Forall2 same_sizes ls (load_modulelist sd prefix idx ls log).1.
Proof.
  revert idx log. induction ls as [|l ls IH]; intros idx log; [constructor|].
  simpl.
  pose proof (load_linear_same (prefix +:+ pretty idx +:+ ".") l log) as Hl.
  destruct (load_linear sd (prefix +:+ pretty idx +:+ ".") l log)
    as [l1 log1].
  specialize (IH (S idx) log1).
  destruct (load_modulelist sd prefix (S idx) ls log1) as [ls1 log2].
  by constructor.
Qed.

Lemma load_state_dict_same (m : Net) :
  Forall2 same_sizes (layers m) (layers (load_state_dict m sd).1).
Proof.
  unfold load_state_dict, layers.
  pose proof (load_modulelist_same "hidden_layers." (hidden_layers m) 0
                empty_log) as Hh.
  destruct (load_modulelist sd "hidden_layers." 0 (hidden_layers m) empty_log)
    as [hl log1].
  pose proof (load_linear_same "output." (output m) log1) as Ho.
  destruct (load_linear sd "output." (output m) log1) as [out log2].
  simpl in *. apply Forall2_app; [done|]. by constructor.
Qed.

End walk.

(** * Shapes of reachable models *)

Section shapes.

Lemma model_input_size_layers (m : Net) :
  head (layers m) = Some (default (output m) (head (hidden_layers m)))
  ∧ model_input_size m
    = in_features (default (output m) (head (hidden_layers m))).
Proof. unfold layers, model_input_size. by destruct (hidden_layers m). Qed.

Lemma last_cons_default (h d : N) (hs : list N) :
  List.last (h :: hs) d = List.last hs h.
Proof.
  revert h d. induction hs as [|h' hs IH]; intros h d; [done|].
  change (List.last (h :: h' :: hs) d) with (List.last (h' :: hs) d).
  by rewrite (IH h' d), (IH h' h).
Qed.

Lemma nn_Linear_ok (init : Init) (name : string) (i o : N) :
  linear_ok (nn_Linear init name i o).
Proof. by split. Qed.

Lemma build_chained (init : Init) (o : N) (hs : list N) (idx : nat) (prev : N) :
  chained prev
    (build_hidden init idx prev hs
       ++ [nn_Linear init "output" (List.last hs prev) o]).
Proof.
  revert idx prev. induction hs as [|h hs IH]; intros idx prev.
  - simpl. split_and!; [done|apply nn_Linear_ok|done].
  - rewrite last_cons_default. simpl.
    split_and!; [done|apply nn_Linear_ok|apply IH].
Qed.

Lemma Network_input_size (init : Init) (i o : N) (hs : list N) :
  model_input_size (Network init i o hs) = i.
Proof. unfold model_input_size. by destruct hs. Qed.

Lemma Network_wf (init : Init) (i o : N) (hs : list N) :
  wf_model (Network init i o hs).
Proof.
  unfold wf_model. rewrite Network_input_size. apply build_chained.
Qed.

Lemma chained_same (ls ls' : list Linear) (prev : N) :
  Forall2 same_sizes ls ls' → chained prev ls → chained prev ls'.
Proof.
  intros Hsame. revert prev.
  induction Hsame as [|l l' ls ls' (Hi & Ho & Hw & Hb) _ IH]; intros prev;
    [done|].
  simpl. intros (Hin & [Hlw Hlb] & Hrest). split_and!.
  - congruence.
  - split; congruence.
  - rewrite Ho. by apply IH.
Qed.

Lemma wf_model_same (m m' : Net) :
  Forall2 same_sizes (layers m) (layers m') → wf_model m → wf_model m'.
Proof.
  intros Hsame Hwf. unfold wf_model in *.
  assert (model_input_size m' = model_input_size m) as ->;
    [|by eapply chained_same].
  destruct (model_input_size_layers m) as [Hh ->].
  destruct (model_input_size_layers m') as [Hh' ->].
  destruct Hsame as [|l l' ls ls' (Hi & _) _]; simplify_eq/=. done.
Qed.

Lemma step_linear_same (upd : string → list Z → list Z) (prefix : string)
    (l : Linear) :
  same_sizes l (step_linear upd prefix l).
Proof. by repeat split. Qed.

Lemma imap_same (f : nat → Linear → Linear) (ls : list Linear) :
  (∀ i l, same_sizes l (f i l)) → Forall2 same_sizes ls (imap f ls).
Proof.
  revert f. induction ls as [|l ls IH]; intros f Hf; [constructor|].
  simpl. constructor; [apply Hf|]. apply IH. intros i l'. apply Hf.
Qed.

Lemma optimizer_step_same (upd : string → list Z → list Z) (m : Net) :
  Forall2 same_sizes (layers m) (layers (optimizer_step upd m)).
Proof.
  unfold layers, optimizer_step. simpl.
  apply Forall2_app; [|constructor; [apply step_linear_same|constructor]].
  apply imap_same. intros i l. apply step_linear_same.
Qed.

Lemma reachable_wf (m : Net) : reachable m → wf_model m.
Proof.
  induction 1 as [init i o hs|upd m _ IH|m sd _ IH].
  - apply Network_wf.
  - eapply wf_model_same; [apply optimizer_step_same|done].
  - eapply wf_model_same; [apply load_state_dict_same|done].
Qed.

Lemma chained_shapes (ls : list Linear) (prev : N) (i : nat) (l : Linear) :
  chained prev ls → ls !! i = Some l →
  shape (weight l)
  = [nth (S i) (prev :: map out_features ls) 0%N;
     nth i (prev :: map out_features ls) 0%N]
  ∧ shape (bias l) = [nth (S i) (prev :: map out_features ls) 0%N].
Proof.
  revert prev i. induction ls as [|l0 ls IH]; intros prev i; [done|].
  intros (Hin & [Hw Hb] & Hrest) Hl. destruct i as [|i].
  - simplify_eq/=. by rewrite Hw, Hb.
  - simpl in Hl. destruct (IH _ _ Hrest Hl) as [Hw' Hb']. by rewrite Hw', Hb'.
Qed.

Lemma modulelist_state_lookup (prefix : string) (ls : list Linear)
    (idx i : nat) (l : Linear) :
  ls !! i = Some l →
  modulelist_state prefix idx ls !! (2 * i)
  = Some (item_key prefix (idx + i) "weight", weight l)
  ∧ modulelist_state prefix idx ls !! (2 * i + 1)
    = Some (item_key prefix (idx + i) "bias", bias l).
Proof.
  revert idx i. induction ls as [|l0 ls IH]; intros idx i Hl; [done|].
  destruct i as [|i].
  - simplify_eq/=. by rewrite Nat.add_0_r.
  - simpl in Hl. destruct (IH (S idx) i Hl) as [Hw Hb].
    replace (2 * S i) with (S (S (2 * i))) by lia.
    replace (idx + S i) with (S idx + i) by lia. done.
Qed.

Lemma length_modulelist_state (prefix : string) (ls : list Linear) (idx : nat) :
  length (modulelist_state prefix idx ls) = 2 * length ls.
Proof.
  revert idx. induction ls as [|l ls IH]; intros idx; [done|].
  simpl. rewrite IH. lia.
Qed.

Lemma length_state_dict (m : Net) :
  length (state_dict m) = 2 * (length (hidden_layers m) + 1).
Proof.
  unfold state_dict. rewrite length_app, length_modulelist_state. simpl. lia.
Qed.

(** The entries 2i and 2i+1 of the state dict are the weight and the bias
    of the layer at position i. *)
Lemma state_dict_lookup (m : Net) (i : nat) (l : Linear) :
  layers m !! i = Some l →
  ∃ kw kb, state_dict m !! (2 * i) = Some (kw, weight l)
         ∧ state_dict m !! (2 * i + 1) = Some (kb, bias l).
Proof.
  unfold layers, state_dict. intros Hl.
  destruct (decide (i < length (hidden_layers m))) as [Hlt|Hge].
  - rewrite lookup_app_l in Hl by done.
    destruct (modulelist_state_lookup "hidden_layers." _ 0 _ _ Hl) as [Hw Hb].
    eexists _, _.
    rewrite !lookup_app_l by (rewrite length_modulelist_state; lia). done.
  - rewrite lookup_app_r in Hl by lia.
    assert (i = length (hidden_layers m)) as ->.
    { apply lookup_lt_Some in Hl. simpl in Hl. lia. }
    rewrite Nat.sub_diag in Hl. injection Hl as <-. eexists _, _.
    rewrite !lookup_app_r by (rewrite length_modulelist_state; lia).
    rewrite length_modulelist_state.
    replace (2 * length (hidden_layers m) - 2 * length (hidden_layers m))
      with 0 by lia.
    replace (2 * length (hidden_layers m) + 1 - 2 * length (hidden_layers m))
      with 1 by lia.
    done.
Qed.

End shapes.

(** * The state dict of a network *)

Section state_dict_facts.

Lemma append_assoc (s1 s2 s3 : string) :
  (s1 +:+ s2) +:+ s3 = s1 +:+ (s2 +:+ s3).
Proof.
  induction s1 as [|c s1 IH]; [done|].
  unfold String.app in *. simpl. by rewrite IH.
Qed.

Lemma item_key_weight (prefix : string) (j : nat) :
  item_key prefix j "weight" = prefix +:+ pretty j +:+ ".weight".
Proof. unfold item_key. by rewrite !append_assoc. Qed.

Lemma item_key_bias (prefix : string) (j : nat) :
  item_key prefix j "bias" = prefix +:+ pretty j +:+ ".bias".
Proof. unfold item_key. by rewrite !append_assoc. Qed.

Lemma length_build_hidden (init : Init) (hs : list N) (idx : nat) (prev : N) :
  length (build_hidden init idx prev hs) = length hs.
Proof.
  revert idx prev. induction hs as [|h hs IH]; intros idx prev; [done|].
  simpl. by rewrite IH.
Qed.

Lemma out_features_build_hidden (init : Init) (hs : list N) (idx : nat)
    (prev : N) :
  map out_features (build_hidden init idx prev hs) = hs.
Proof.
  revert idx prev. induction hs as [|h hs IH]; intros idx prev; [done|].
  simpl. by rewrite IH.
Qed.

Lemma app_eq_last {A : Type} (l1 l2 t1 t2 : list A) :
  l1 ++ t1 = l2 ++ t2 →
  head (rev t1) = head (rev t2) ∨ t1 = [] ∨ t2 = [].
Proof.
  intros H. apply (f_equal (@rev A)) in H. rewrite !rev_app_distr in H.
  destruct t1 as [|a t1 _] using rev_ind; [by right; left|].
  destruct t2 as [|b t2 _] using rev_ind; [by right; right|].
  left. rewrite !rev_app_distr in *. simpl in *. congruence.
Qed.

(** A name of the form [hidden_<j>_<param>] is no key of a state dict. *)
Lemma underscore_key_not_item (prefix : string) (i j : nat) (s s' : string) :
  is_param_name s → is_param_name s' →
  "hidden_" +:+ pretty j +:+ "_" +:+ s ≠ item_key prefix i s'.
Proof.
  intros Hs Hs' Heq. unfold item_key in Heq.
  apply (f_equal Stdlib.Strings.String.list_ascii_of_string) in Heq.
  rewrite !list_of_append in Heq.
  rewrite <-!(assoc_L (++)) in Heq.
  set (L := Stdlib.Strings.String.list_ascii_of_string) in *.
  assert (Heq' : (L "hidden_" ++ L (pretty j)) ++ (L "_" ++ L s)
                 = (L prefix ++ L (pretty i)) ++ (L "." ++ L s'))
    by (by rewrite <-!(assoc_L (++))).
  clear Heq. rename Heq' into Heq.
  destruct Hs as [-> | ->], Hs' as [-> | ->].
  - apply app_inj_2 in Heq as [_ Ht]; [discriminate|done].
  - apply app_eq_last in Heq as [H | [H | H]]; discriminate.
  - apply app_eq_last in Heq as [H | [H | H]]; discriminate.
  - apply app_inj_2 in Heq as [_ Ht]; [discriminate|done].
Qed.

Lemma underscore_output_not_key (m : Net) (s : string) :
  "output_" +:+ s ∉ keys (state_dict m).
Proof.
  rewrite keys_state_dict. intros Hin.
  apply elem_of_app in Hin as [Hin | Hin].
  - apply list_elem_of_In, in_flat_map in Hin as (i & _ & Hk).
    unfold item_key in Hk.
    destruct Hk as [Hk | [Hk | []]];
      apply (f_equal Stdlib.Strings.String.list_ascii_of_string) in Hk;
      rewrite !list_of_append in Hk; discriminate.
  - apply list_elem_of_In in Hin.
    destruct Hin as [Hk | [Hk | []]];
      apply (f_equal Stdlib.Strings.String.list_ascii_of_string) in Hk;
      rewrite !list_of_append in Hk; discriminate.
Qed.

Lemma underscore_hidden_not_key (m : Net) (j : nat) (s : string) :
  is_param_name s →
  "hidden_" +:+ pretty j +:+ "_" +:+ s ∉ keys (state_dict m).
Proof.
  intros Hs. unfold state_dict. rewrite keys_app. intros Hin.
  apply elem_of_app in Hin as [Hin | Hin].
  - apply in_keys_modulelist in Hin as (i & s' & _ & Hs' & Heq).
    by apply underscore_key_not_item in Heq.
  - apply list_elem_of_In in Hin.
    destruct Hin as [Hk | [Hk | []]];
      apply (f_equal Stdlib.Strings.String.list_ascii_of_string) in Hk;
      rewrite !list_of_append in Hk; discriminate.
Qed.

End state_dict_facts.

(** * Properties of the state dict and of the checkpoint dictionary *)

(** C10: a network built with h hidden layers has a state dict of exactly
    2*(h+1) entries, named in order hidden_layers.0.weight,
    hidden_layers.0.bias, ..., hidden_layers.(h-1).weight,
    hidden_layers.(h-1).bias, output.weight, output.bias; no name of the
    form hidden_0_weight or output_weight is among them. *)
Theorem C10_state_dict_keys (init : Init) (i o : N) (hs : list N) :
  let sd := state_dict (Network init i o hs) in
  length sd = 2 * (length hs + 1)
  ∧ keys sd
    = flat_map (λ j, ["hidden_layers." +:+ pretty j +:+ ".weight";
                      "hidden_layers." +:+ pretty j +:+ ".bias"])
        (seq 0 (length hs))
      ++ ["output.weight"; "output.bias"]
  ∧ ∀ j : nat,
      (("hidden_" +:+ pretty j +:+ "_weight") ∉ keys sd)
      ∧ (("hidden_" +:+ pretty j +:+ "_bias") ∉ keys sd)
      ∧ ("output_weight" ∉ keys sd) ∧ ("output_bias" ∉ keys sd).
Proof.
  intros sd. subst sd. split_and!.
  - rewrite length_state_dict. simpl. by rewrite length_build_hidden.
  - rewrite keys_state_dict. simpl. rewrite length_build_hidden.
    f_equal. apply flat_map_ext. intros j.
    by rewrite item_key_weight, item_key_bias.
  - intros j. split_and!.
    + apply (underscore_hidden_not_key _ j "weight"). by left.
    + apply (underscore_hidden_not_key _ j "bias"). by right.
    + apply (underscore_output_not_key _ "weight").
    + apply (underscore_output_not_key _ "bias").
Qed.

(** C8: for every model a session can hold, with widths width[0..k], the
    weight of layer i has shape (width[i], width[i-1]) and its bias has
    shape (width[i],), for each i from 1 to k; this holds of the state dict
    the model exposes, of the one its checkpoint dictionary holds, and of
    the one read back from a file the checkpoint was saved to. *)
Theorem C8_layer_shapes (m : Net) (sd : StateDict) (i : nat) :
  reachable m →
  (sd = state_dict m
   ∨ dict_get (checkpoint m) "state_dict" = inr (POrderedDict sd)
   ∨ ∃ path fs d, torch_load (save_checkpoint m path fs) path = inr d
                  ∧ dict_get d "state_dict" = inr (POrderedDict sd)) →
  1 ≤ i < length (widths m) →
  ∃ kw tw kb tb,
    sd !! (2 * (i - 1)) = Some (kw, tw)
    ∧ sd !! (2 * (i - 1) + 1) = Some (kb, tb)
    ∧ shape tw = [nth i (widths m) 0%N; nth (i - 1) (widths m) 0%N]
    ∧ shape tb = [nth i (widths m) 0%N].
Proof.
  intros Hreach Hsd Hi.
  assert (sd = state_dict m) as ->.
  { destruct Hsd as [Hsd | [Hsd | (path & fs & d & Hload & Hsd)]].
    - done.
    - simpl in Hsd. congruence.
    - unfold torch_load, save_checkpoint, torch_save in Hload.
      rewrite lookup_insert_eq in Hload. simplify_eq/=. done. }
  apply reachable_wf in Hreach. unfold wf_model in Hreach.
  unfold widths in *. simpl in Hi. rewrite length_map in Hi.
  destruct (lookup_lt_is_Some_2 (layers m) (i - 1)) as [l Hl]; [lia|].
  destruct (state_dict_lookup m _ _ Hl) as (kw & kb & Hw & Hb).
  destruct (chained_shapes _ _ _ _ Hreach Hl) as [Hsw Hsb].
  replace (S (i - 1)) with i in * by lia.
  by exists kw, (weight l), kb, (bias l).
Qed.

Lemma C8_layer_shapes_witness :
  ∃ kw tw kb tb,
    state_dict (Network init0 4 2 [3]%N) !! 0 = Some (kw, tw)
    ∧ state_dict (Network init0 4 2 [3]%N) !! 1 = Some (kb, tb)
    ∧ shape tw = [3; 4]%N ∧ shape tb = [3]%N.
Proof.
  apply (C8_layer_shapes (Network init0 4 2 [3]%N) _ 1).
  - apply reach_new.
  - by left.
  - simpl. lia.
Defined.

(** C5, as the code has it: the checkpoint dictionary holds the hidden
    widths of the model (the out_features of its hidden layers, in order)
    and the constants 784 and 10 as input and output size; its descriptor is
    the descriptor of the model exactly when the model has input size 784
    and output size 10. *)
Theorem C5_record_descriptor (m : Net) :
  record_descriptor (checkpoint m)
  = inr (784%N, 10%N, model_hidden_sizes m)
  ∧ (record_descriptor (checkpoint m) = inr (descriptor m)
     ↔ model_input_size m = 784%N ∧ model_output_size m = 10%N).
Proof.
  split; [done|]. unfold descriptor.
  change (record_descriptor (checkpoint m))
    with (inr (784%N, 10%N, model_hidden_sizes m) : Result Descriptor).
  split.
  - intros H. by simplify_eq.
  - by intros [-> ->].
Qed.

(** C5 fails as stated: a network built with input size 4 and output size 2
    is saved with the descriptor (784, 10, [3]). *)
Lemma C5_descriptor_counterexample :
  ¬ (record_descriptor (checkpoint (Network init0 4 2 [3]%N))
     = inr (descriptor (Network init0 4 2 [3]%N))).
Proof. vm_compute. discriminate. Qed.

(** C6, as the code has it: the checkpoint dictionary has exactly the keys
    input_size, output_size, hidden_layers and state_dict, holding an
    integer, an integer, a list of integers and a state dict; the file the
    dictionary is saved to gives it back, [load_checkpoint] builds the
    network from the first three entries and loads the fourth into it, and
    without any one of the four keys it raises a KeyError for that key. *)
Theorem C6_record_layout (init : Init) (m : Net) (path : string)
    (fs : gmap string PyDict) :
  map fst (checkpoint m)
  = ["input_size"; "output_size"; "hidden_layers"; "state_dict"]
  ∧ (∃ (i o : N) (h : list N) (sd : StateDict),
        dict_get (checkpoint m) "input_size" = inr (PInt i)
        ∧ dict_get (checkpoint m) "output_size" = inr (PInt o)
        ∧ dict_get (checkpoint m) "hidden_layers" = inr (PList h)
        ∧ dict_get (checkpoint m) "state_dict" = inr (POrderedDict sd)
        ∧ load_checkpoint init (save_checkpoint m path fs) path
          = let '(model, outcome) := load_state_dict (Network init i o h) sd in
            bind outcome (λ _, inr model))
  ∧ torch_load (save_checkpoint m path fs) path = inr (checkpoint m)
  ∧ Forall (λ key,
       load_checkpoint init
         (torch_save (dict_remove key (checkpoint m)) path fs) path
       = inl (KeyError key))
      ["input_size"; "output_size"; "hidden_layers"; "state_dict"].
Proof.
  assert (Hload : torch_load (save_checkpoint m path fs) path
                  = inr (checkpoint m)).
  { unfold torch_load, save_checkpoint, torch_save.
    by rewrite lookup_insert_eq. }
  split_and!.
  - done.
  - exists 784%N, 10%N, (map out_features (hidden_layers m)), (state_dict m).
    split_and!; [done..|].
    unfold load_checkpoint. rewrite Hload. done.
  - done.
  - repeat constructor; unfold load_checkpoint, torch_load, torch_save;
      rewrite lookup_insert_eq; done.
Qed.

(** C6 fails as stated: the third key of the dictionary is hidden_layers,
    hidden_sizes is no key of it, and a record laid out with hidden_sizes
    is not loaded. *)
Lemma C6_layout_counterexample :
  ¬ (∀ key, key ∈ map fst (checkpoint (Network init0 784 10 [3]%N))
            ↔ key ∈ ["input_size"; "output_size"; "hidden_sizes";
                      "state_dict"])
  ∧ load_checkpoint init0
      {[ "checkpoint.pth" :=
           [("input_size", PInt 784%N); ("output_size", PInt 10%N);
            ("hidden_sizes", PList [3%N]);
            ("state_dict",
             POrderedDict (state_dict (Network init0 784 10 [3]%N)))] ]}
      "checkpoint.pth"
    = inl (KeyError "hidden_layers").
Proof.
  split.
  - intros H. specialize (H "hidden_sizes"). destruct H as [_ H].
    assert (Hin : "hidden_sizes"
                  ∈ map fst (checkpoint (Network init0 784 10 [3]%N))).
    { apply H. rewrite !elem_of_cons. auto. }
    simpl in Hin. rewrite !elem_of_cons, elem_of_nil in Hin.
    destruct Hin as [?|[?|[?|[?|[]]]]]; discriminate.
  - unfold load_checkpoint, torch_load. by rewrite lookup_singleton_eq.
Qed.

(** * The report and the effect of load_state_dict *)

Section report.

Lemma sd_get_elem_of (sd : StateDict) (k : string) (t : Tensor) :
  sd_get sd k = Some t → (k, t) ∈ sd.
Proof.
  induction sd as [|[k' t'] sd IH]; [done|]. simpl.
  case_bool_decide as Hk.
  - intros [= ->]. subst. apply list_elem_of_here.
  - intros H. apply list_elem_of_further. by apply IH.
Qed.

Lemma sd_get_NoDup (sd : StateDict) (k : string) (t : Tensor) :
  NoDup (keys sd) → (k, t) ∈ sd → sd_get sd k = Some t.
Proof.
  induction sd as [|[k' t'] sd IH]; [by intros _ ?%elem_of_nil|].
  simpl. intros [Hnotin Hnd]%NoDup_cons [Heq | Hin]%elem_of_cons.
  - simplify_eq. by rewrite bool_decide_eq_true_2.
  - rewrite bool_decide_eq_false_2; [by apply IH|].
    intros ->. apply Hnotin. unfold keys.
    apply list_elem_of_fmap. by exists (k, t).
Qed.

Lemma sd_get_load_entry (sd es : StateDict) (k : string) :
  sd_get (map (load_entry sd) es) k
  = (λ p, (load_entry sd (k, p)).2) <$> sd_get es k.
Proof.
  induction es as [|[k' p'] es IH]; [done|]. simpl.
  case_bool_decide; [by subst|done].
Qed.

Lemma signature_load_entry (sd es : StateDict) :
  signature (map (load_entry sd) es) = signature es.
Proof.
  unfold signature. rewrite map_map. apply map_ext. intros [k p].
  unfold load_entry. simpl. destruct (sd_get sd k) as [t|]; [|done].
  by destruct (size_eqb (shape t) (shape p)).
Qed.

Lemma keys_signature (sd : StateDict) : map fst (signature sd) = keys sd.
Proof. unfold signature, keys. rewrite map_map. by apply map_ext. Qed.

Lemma final_msgs_elem_of (missing unexpected : list string)
    (msgs : list ErrorMsg) (e : ErrorMsg) :
  e ∈ msgs → e ∈ final_msgs missing unexpected msgs.
Proof. intros He. unfold final_msgs. rewrite !elem_of_app. auto. Qed.

Lemma final_msgs_size_mismatch (missing unexpected : list string)
    (msgs : list ErrorMsg) (k : string) (s1 s2 : Size) :
  SizeMismatch k s1 s2 ∈ final_msgs missing unexpected msgs →
  SizeMismatch k s1 s2 ∈ msgs.
Proof.
  unfold final_msgs. rewrite !elem_of_app. intros [H | [H | H]]; [| |done].
  - destruct missing; [by apply elem_of_nil in H|].
    apply elem_of_cons in H as [H | H]; [done|by apply elem_of_nil in H].
  - destruct unexpected; [by apply elem_of_nil in H|].
    apply elem_of_cons in H as [H | H]; [done|by apply elem_of_nil in H].
Qed.

Lemma raise_or_return_inl (missing unexpected : list string)
    (msgs : list ErrorMsg) (e : ErrorMsg) :
  e ∈ msgs →
  raise_or_return missing unexpected msgs
  = inl (RuntimeError (final_msgs missing unexpected msgs)).
Proof.
  intros He%(final_msgs_elem_of missing unexpected). unfold raise_or_return.
  destruct (final_msgs missing unexpected msgs); [by apply elem_of_nil in He|].
  done.
Qed.

Lemma raise_or_return_inv (missing unexpected : list string)
    (msgs : list ErrorMsg) :
  (raise_or_return missing unexpected msgs
   = inr (mkIncompatibleKeys missing unexpected)
   ∧ missing = [] ∧ unexpected = [] ∧ msgs = [])
  ∨ (raise_or_return missing unexpected msgs
     = inl (RuntimeError (final_msgs missing unexpected msgs))
     ∧ final_msgs missing unexpected msgs ≠ []).
Proof.
  unfold raise_or_return.
  destruct (final_msgs missing unexpected msgs) as [|e es] eqn:Hf;
    [left|by right].
  unfold final_msgs in Hf. by destruct missing, unexpected, msgs.
Qed.

(** The mismatch messages of the walk are exactly the mismatches. *)
Lemma mismatch_msgs_elem_of (sd es : StateDict) (k : string) (s1 s2 : Size) :
  SizeMismatch k s1 s2 ∈ flat_map (mismatch_msgs sd) (signature es)
  ↔ ∃ t p, (k, p) ∈ es ∧ sd_get sd k = Some t
           ∧ s1 = shape t ∧ s2 = shape p ∧ shape t ≠ shape p.
Proof.
  rewrite list_elem_of_In, in_flat_map. unfold signature. split.
  - intros ([k' s] & Hin & Hmsg).
    apply in_map_iff in Hin as ([k'' p] & [= <- <-] & Hin).
    unfold mismatch_msgs in Hmsg. simpl in Hmsg.
    destruct (sd_get sd k'') as [t|] eqn:Hget; [|done].
    unfold size_eqb in Hmsg. case_bool_decide as Hs; [done|].
    destruct Hmsg as [[= <- <- <-] | []].
    exists t, p. by rewrite list_elem_of_In.
  - intros (t & p & Hin & Hget & -> & -> & Hne).
    exists (k, shape p). split.
    + apply in_map_iff. exists (k, p). by rewrite <-list_elem_of_In.
    + unfold mismatch_msgs, size_eqb. simpl. rewrite Hget.
      rewrite bool_decide_eq_false_2 by done. by left.
Qed.

End report.

(** C2: whenever a stored parameter has another shape than the parameter
    of that name in the target model, the load raises (a RuntimeError in
    the code), and the report of that one exception has a size-mismatch
    line for every such parameter, giving its name, the stored shape and
    the shape in the model; it has no size-mismatch line for any other. *)
Theorem C2_all_mismatches_reported (m : Net) (sd : StateDict) :
  (∃ k t p, sd_get (state_dict m) k = Some p ∧ sd_get sd k = Some t
            ∧ shape t ≠ shape p) →
  ∃ msgs,
    (load_state_dict m sd).2 = inl (RuntimeError msgs)
    ∧ (∀ k t p, sd_get (state_dict m) k = Some p → sd_get sd k = Some t →
         shape t ≠ shape p → SizeMismatch k (shape t) (shape p) ∈ msgs)
    ∧ (∀ k s1 s2, SizeMismatch k s1 s2 ∈ msgs →
         ∃ t p, sd_get (state_dict m) k = Some p ∧ sd_get sd k = Some t
                ∧ s1 = shape t ∧ s2 = shape p ∧ shape t ≠ shape p).
Proof.
  intros (k0 & t0 & p0 & Hp0 & Ht0 & Hne0).
  destruct (load_state_dict_spec sd m) as [_ Hout].
  set (missing := flat_map (missing_of sd) (keys (state_dict m))) in *.
  set (unexpected := unexpected_keys_of m sd) in *.
  set (msgs := flat_map (mismatch_msgs sd) (signature (state_dict m))) in *.
  assert (Hall : ∀ k t p, sd_get (state_dict m) k = Some p →
            sd_get sd k = Some t → shape t ≠ shape p →
            SizeMismatch k (shape t) (shape p) ∈ msgs).
  { intros k t p Hp Ht Hne. apply mismatch_msgs_elem_of.
    exists t, p. split_and!; [by apply sd_get_elem_of|done..]. }
  exists (final_msgs missing unexpected msgs). split_and!.
  - rewrite Hout. eapply raise_or_return_inl, Hall; eauto.
  - intros k t p Hp Ht Hne. by apply final_msgs_elem_of, Hall.
  - intros k s1 s2 Hin%final_msgs_size_mismatch.
    apply mismatch_msgs_elem_of in Hin
      as (t & p & Hin & Hget & -> & -> & Hne).
    exists t, p. split_and!; [|done..].
    apply sd_get_NoDup; [apply NoDup_keys_state_dict|done].
Qed.

Lemma C2_all_mismatches_reported_witness :
  ∃ msgs,
    (load_state_dict (Network init1 4 2 [5]%N)
       (state_dict (Network init0 4 2 [3]%N))).2
    = inl (RuntimeError msgs)
    ∧ (∀ k t p,
         sd_get (state_dict (Network init1 4 2 [5]%N)) k = Some p →
         sd_get (state_dict (Network init0 4 2 [3]%N)) k = Some t →
         shape t ≠ shape p → SizeMismatch k (shape t) (shape p) ∈ msgs)
    ∧ (∀ k s1 s2, SizeMismatch k s1 s2 ∈ msgs →
         ∃ t p,
           sd_get (state_dict (Network init1 4 2 [5]%N)) k = Some p
           ∧ sd_get (state_dict (Network init0 4 2 [3]%N)) k = Some t
           ∧ s1 = shape t ∧ s2 = shape p ∧ shape t ≠ shape p).
Proof.
  apply (C2_all_mismatches_reported (Network init1 4 2 [5]%N)
           (state_dict (Network init0 4 2 [3]%N))).
  exists "output.weight",
    (fresh init0 "output.weight" [2; 3]%N),
    (fresh init1 "output.weight" [2; 5]%N).
  split_and!; [reflexivity|reflexivity|simpl; congruence].
Defined.

(** C4: loading the parameters saved from a network built with
    (784, 10, [512,256,128]) into one built with (784, 10, [400,200,100])
    raises one exception whose report names exactly seven tensors: the
    weight and bias of each of the three hidden layers and the output
    weight.  The output bias, of shape (10,) in both, is not named. *)
Theorem C4_seven_mismatches (init init' : Init) :
  (load_state_dict (Network init' 784 10 [400; 200; 100]%N)
     (state_dict (Network init 784 10 [512; 256; 128]%N))).2
  = inl (RuntimeError
      [SizeMismatch "hidden_layers.0.weight" [512; 784]%N [400; 784]%N;
       SizeMismatch "hidden_layers.0.bias" [512]%N [400]%N;
       SizeMismatch "hidden_layers.1.weight" [256; 512]%N [200; 400]%N;
       SizeMismatch "hidden_layers.1.bias" [256]%N [200]%N;
       SizeMismatch "hidden_layers.2.weight" [128; 256]%N [100; 200]%N;
       SizeMismatch "hidden_layers.2.bias" [128]%N [100]%N;
       SizeMismatch "output.weight" [10; 128]%N [10; 100]%N]).
Proof. lazy. reflexivity. Qed.

(** * A failed load *)

Lemma load_checkpoint_inr (init : Init) (fs : gmap string PyDict)
    (path : string) (model : Net) :
  load_checkpoint init fs path = inr model →
  ∃ (d : PyDict) (i o : N) (h : list N) (sd : StateDict)
    (ik : IncompatibleKeys),
    fs !! path = Some d
    ∧ dict_get d "input_size" = inr (PInt i)
    ∧ dict_get d "output_size" = inr (PInt o)
    ∧ dict_get d "hidden_layers" = inr (PList h)
    ∧ dict_get d "state_dict" = inr (POrderedDict sd)
    ∧ load_state_dict (Network init i o h) sd = (model, inr ik).
Proof.
  unfold load_checkpoint, torch_load.
  destruct (fs !! path) as [d|] eqn:Hfs; [|done]. simpl.
  destruct (dict_get d "input_size") as [|v_in] eqn:Hi; [done|]. simpl.
  destruct (dict_get d "output_size") as [|v_out] eqn:Ho; [done|]. simpl.
  destruct (dict_get d "hidden_layers") as [|v_hidden] eqn:Hh; [done|].
  simpl. unfold Network_call.
  destruct v_in as [i| |]; try done. simpl.
  destruct v_out as [o| |]; try done. simpl.
  destruct v_hidden as [|h|]; try done. simpl.
  destruct (dict_get d "state_dict") as [|[| |sd]] eqn:Hsd; try done. simpl.
  destruct (load_state_dict (Network init i o h) sd) as [m' [e|ik]] eqn:Hl;
    [done|].
  simpl. intros [= <-]. by exists d, i, o, h, sd, ik.
Qed.

Lemma load_checkpoint_raises (init : Init) (fs : gmap string PyDict)
    (path : string) (d : PyDict) (i o : N) (h : list N) (sd : StateDict)
    (e : PyError) :
  fs !! path = Some d →
  dict_get d "input_size" = inr (PInt i) →
  dict_get d "output_size" = inr (PInt o) →
  dict_get d "hidden_layers" = inr (PList h) →
  dict_get d "state_dict" = inr (POrderedDict sd) →
  (load_state_dict (Network init i o h) sd).2 = inl e →
  load_checkpoint init fs path = inl e.
Proof.
  intros Hfs Hi Ho Hh Hsd Hraise. unfold load_checkpoint, torch_load.
  rewrite Hfs. simpl. rewrite Hi, Ho, Hh. simpl. rewrite Hsd. simpl.
  destruct (load_state_dict (Network init i o h) sd) as [m' outcome].
  simpl in Hraise. by subst outcome.
Qed.

(** C3, as the code has it: when [load_state_dict] raises, names and shapes
    of the model are as before; a parameter whose stored shape disagrees,
    or that is not stored, keeps its elements; a parameter stored under its
    name with the same shape has been overwritten with the stored tensor.
    [load_checkpoint] hands no model to its caller then: when the load of
    the record's state dict into the network built from the record's sizes
    raises, [load_checkpoint] raises that exception, and a model it returns
    is the one left by such a load that raised nothing. *)
Theorem C3_failed_load (m : Net) (sd : StateDict) (e : PyError) :
  (load_state_dict m sd).2 = inl e →
  let m' := (load_state_dict m sd).1 in
  signature (state_dict m') = signature (state_dict m)
  ∧ (∀ k p, sd_get (state_dict m) k = Some p →
       (∀ t, sd_get sd k = Some t → shape t ≠ shape p →
             sd_get (state_dict m') k = Some p)
       ∧ (sd_get sd k = None → sd_get (state_dict m') k = Some p)
       ∧ (∀ t, sd_get sd k = Some t → shape t = shape p →
               sd_get (state_dict m') k = Some t))
  ∧ (∀ init fs path d i o h sd' e',
       fs !! path = Some d →
       dict_get d "input_size" = inr (PInt i) →
       dict_get d "output_size" = inr (PInt o) →
       dict_get d "hidden_layers" = inr (PList h) →
       dict_get d "state_dict" = inr (POrderedDict sd') →
       (load_state_dict (Network init i o h) sd').2 = inl e' →
       load_checkpoint init fs path = inl e')
  ∧ (∀ init fs path model, load_checkpoint init fs path = inr model →
       ∃ d i o h sd' ik,
         fs !! path = Some d
         ∧ dict_get d "input_size" = inr (PInt i)
         ∧ dict_get d "output_size" = inr (PInt o)
         ∧ dict_get d "hidden_layers" = inr (PList h)
         ∧ dict_get d "state_dict" = inr (POrderedDict sd')
         ∧ load_state_dict (Network init i o h) sd' = (model, inr ik)).
Proof.
  intros _ m'. subst m'.
  destruct (load_state_dict_spec sd m) as [Hsd _]. rewrite Hsd.
  split_and!.
  - apply signature_load_entry.
  - intros k p Hp. rewrite sd_get_load_entry, Hp. unfold load_entry, size_eqb.
    simpl. split_and!.
    + intros t -> Hne. by rewrite bool_decide_eq_false_2.
    + by intros ->.
    + intros t -> Heq. rewrite bool_decide_eq_true_2 by done.
      unfold copy_. rewrite <-Heq. by destruct t.
  - intros init fs path d i o h sd' e'. apply load_checkpoint_raises.
  - intros init fs path model. apply load_checkpoint_inr.
Qed.

Lemma C3_failed_load_witness :
  let m := Network init1 4 2 [5]%N in
  let sd := state_dict (Network init0 4 2 [3]%N) in
  let m' := (load_state_dict m sd).1 in
  signature (state_dict m') = signature (state_dict m)
  ∧ (∀ k p, sd_get (state_dict m) k = Some p →
       (∀ t, sd_get sd k = Some t → shape t ≠ shape p →
             sd_get (state_dict m') k = Some p)
       ∧ (sd_get sd k = None → sd_get (state_dict m') k = Some p)
       ∧ (∀ t, sd_get sd k = Some t → shape t = shape p →
               sd_get (state_dict m') k = Some t))
  ∧ (∀ init fs path d i o h sd' e',
       fs !! path = Some d →
       dict_get d "input_size" = inr (PInt i) →
       dict_get d "output_size" = inr (PInt o) →
       dict_get d "hidden_layers" = inr (PList h) →
       dict_get d "state_dict" = inr (POrderedDict sd') →
       (load_state_dict (Network init i o h) sd').2 = inl e' →
       load_checkpoint init fs path = inl e')
  ∧ (∀ init fs path model, load_checkpoint init fs path = inr model →
       ∃ d i o h sd' ik,
         fs !! path = Some d
         ∧ dict_get d "input_size" = inr (PInt i)
         ∧ dict_get d "output_size" = inr (PInt o)
         ∧ dict_get d "hidden_layers" = inr (PList h)
         ∧ dict_get d "state_dict" = inr (POrderedDict sd')
         ∧ load_state_dict (Network init i o h) sd' = (model, inr ik)).
Proof.
  apply (C3_failed_load (Network init1 4 2 [5]%N)
           (state_dict (Network init0 4 2 [3]%N))
           (RuntimeError
              [SizeMismatch "hidden_layers.0.weight" [3; 4]%N [5; 4]%N;
               SizeMismatch "hidden_layers.0.bias" [3]%N [5]%N;
               SizeMismatch "output.weight" [2; 3]%N [2; 5]%N])).
  reflexivity.
Defined.

(** C3 fails as stated: loading the parameters of a (4, 2, [3]) network
    into a (4, 2, [5]) network raises, and the output bias of the target,
    whose shape (2,) matches, has been overwritten all the same. *)
Lemma C3_partial_load_counterexample :
  let m := Network init1 4 2 [5]%N in
  let sd := state_dict (Network init0 4 2 [3]%N) in
  ¬ (∀ e, (load_state_dict m sd).2 = inl e →
          state_dict (load_state_dict m sd).1 = state_dict m).
Proof.
  intros m sd H.
  specialize (H _ eq_refl).
  apply (f_equal (λ s, sd_get s "output.bias")) in H.
  vm_compute in H. discriminate.
Qed.

(** * Saving and loading back *)

Section roundtrip.

Lemma chained_app_last (ls : list Linear) (o : Linear) (prev : N) :
  chained prev (ls ++ [o]) →
  chained prev ls
  ∧ in_features o = List.last (map out_features ls) prev ∧ linear_ok o.
Proof.
  revert prev. induction ls as [|l ls IH]; intros prev.
  - simpl. by intros (? & ? & _).
  - intros (Hin & Hok & Hrest). apply IH in Hrest as (Hch & Hlast & Ho).
    split_and!; [done| |done].
    rewrite Hlast. change (map out_features (l :: ls))
      with (out_features l :: map out_features ls).
    by rewrite last_cons_default.
Qed.

Lemma signature_build_hidden (init : Init) (prefix : string)
    (ls : list Linear) (idx idx' : nat) (prev : N) :
  chained prev ls →
  signature
    (modulelist_state prefix idx
       (build_hidden init idx' prev (map out_features ls)))
  = signature (modulelist_state prefix idx ls).
Proof.
  revert idx idx' prev. induction ls as [|l ls IH]; intros idx idx' prev;
    [done|].
  intros (Hin & [Hw Hb] & Hrest). simpl.
  unfold signature in *. simpl. rewrite Hw, Hb, Hin.
  do 2 f_equal. by apply IH.
Qed.

(** Rebuilding a well-formed model from its descriptor gives the names and
    shapes of the model. *)
Lemma signature_rebuild (init : Init) (m : Net) :
  wf_model m →
  signature
    (state_dict (Network init (model_input_size m) (model_output_size m)
                   (model_hidden_sizes m)))
  = signature (state_dict m).
Proof.
  unfold wf_model, layers. intros (Hch & Hlast & [Hw Hb])%chained_app_last.
  unfold state_dict, Network, model_hidden_sizes, model_output_size.
  cbn [hidden_layers output]. unfold signature in *.
  rewrite !map_app. f_equal.
  - by apply signature_build_hidden.
  - simpl. by rewrite Hw, Hb, Hlast.
Qed.

Lemma load_entries_self (sd es es' : StateDict) :
  (∀ k t, (k, t) ∈ es' → sd_get sd k = Some t) →
  signature es = signature es' →
  map (load_entry sd) es = es'
  ∧ flat_map (missing_of sd) (keys es) = []
  ∧ flat_map (mismatch_msgs sd) (signature es) = [].
Proof.
  revert es'. induction es as [|[k p] es IH]; intros [|[k' t] es'] Hget Hsig;
    try done.
  injection Hsig as -> Hshape Hsig.
  destruct (IH es') as (Hmap & Hmiss & Hmsgs); [|done|].
  { intros k t' Hin. apply Hget. by apply list_elem_of_further. }
  pose proof (Hget k' t (list_elem_of_here _ _)) as Hk.
  split_and!.
  - cbn [map]. rewrite Hmap. f_equal.
    unfold load_entry, size_eqb. simpl.
    rewrite Hk, bool_decide_eq_true_2 by done.
    f_equal. unfold copy_. rewrite Hshape. by destruct t.
  - change (keys ((k', p) :: es)) with (k' :: keys es). cbn [flat_map].
    rewrite Hmiss. unfold missing_of. by rewrite Hk.
  - change (signature ((k', p) :: es)) with ((k', shape p) :: signature es).
    cbn [flat_map]. rewrite Hmsgs. unfold mismatch_msgs, size_eqb. simpl.
    by rewrite Hk, bool_decide_eq_true_2.
Qed.

Lemma filter_not_elem_of (l l' : list string) :
  l ⊆ l' → filter (λ k, k ∉ l') l = [].
Proof.
  induction l as [|k l IH]; intros Hsub; [done|].
  rewrite filter_cons_False.
  - apply IH. intros x Hx. apply Hsub. by apply list_elem_of_further.
  - intros H. apply H, Hsub, list_elem_of_here.
Qed.

Lemma unexpected_keys_same (m : Net) (sd : StateDict) :
  keys sd = keys (state_dict m) → unexpected_keys_of m sd = [].
Proof.
  intros Hk. unfold unexpected_keys_of. apply filter_not_elem_of.
  by rewrite Hk.
Qed.

(** Loading the state dict of a model into a model with the same names and
    shapes raises nothing and leaves the parameters of the first. *)
Lemma load_state_dict_self (m0 m : Net) :
  signature (state_dict m0) = signature (state_dict m) →
  (load_state_dict m0 (state_dict m)).2 = inr (mkIncompatibleKeys [] [])
  ∧ state_dict (load_state_dict m0 (state_dict m)).1 = state_dict m.
Proof.
  intros Hsig.
  destruct (load_state_dict_spec (state_dict m) m0) as [Hsd Hout].
  destruct (load_entries_self (state_dict m) (state_dict m0) (state_dict m))
    as (Hmap & Hmiss & Hmsgs); [|done|].
  { intros k t. apply sd_get_NoDup, NoDup_keys_state_dict. }
  rewrite Hsd, Hout, Hmap, Hmiss, Hmsgs, unexpected_keys_same; [done|].
  by rewrite <-!keys_signature, Hsig.
Qed.

Lemma load_entries_same_signature (sd es1 es2 : StateDict) :
  signature es1 = signature es2 →
  flat_map (missing_of sd) (keys es1) = [] →
  flat_map (mismatch_msgs sd) (signature es1) = [] →
  map (load_entry sd) es1 = map (load_entry sd) es2.
Proof.
  revert es2. induction es1 as [|[k p1] es1 IH]; intros [|[k' p2] es2] Hsig;
    try done.
  injection Hsig as <- Hshape Hsig.
  change (keys ((k, p1) :: es1)) with (k :: keys es1).
  change (signature ((k, p1) :: es1)) with ((k, shape p1) :: signature es1).
  cbn [flat_map map].
  intros [Hm1 Hm2]%app_eq_nil [He1 He2]%app_eq_nil.
  rewrite (IH es2) by done. f_equal.
  unfold load_entry, missing_of, mismatch_msgs in *. simpl in *.
  destruct (sd_get sd k) as [t|]; [|done]. rewrite <-Hshape.
  destruct (size_eqb (shape t) (shape p1)); [|done].
  unfold copy_. by rewrite Hshape.
Qed.

(** The answer of a load depends on the names and shapes of the target
    only, and so do the parameters it leaves when it raises nothing. *)
Lemma load_state_dict_signature (ma mb : Net) (sd : StateDict) :
  signature (state_dict ma) = signature (state_dict mb) →
  (load_state_dict ma sd).2 = (load_state_dict mb sd).2
  ∧ (∀ ik, (load_state_dict ma sd).2 = inr ik →
       state_dict (load_state_dict ma sd).1
       = state_dict (load_state_dict mb sd).1).
Proof.
  intros Hsig.
  destruct (load_state_dict_spec sd ma) as [Hsda Houta].
  destruct (load_state_dict_spec sd mb) as [Hsdb Houtb].
  assert (Hkeys : keys (state_dict ma) = keys (state_dict mb))
    by (by rewrite <-!keys_signature, Hsig).
  assert (Hun : unexpected_keys_of ma sd = unexpected_keys_of mb sd)
    by (unfold unexpected_keys_of; by rewrite Hkeys).
  split.
  - by rewrite Houta, Houtb, Hsig, Hkeys, Hun.
  - intros ik Hik. rewrite Hsda, Hsdb. rewrite Houta in Hik.
    destruct (raise_or_return_inv
                (flat_map (missing_of sd) (keys (state_dict ma)))
                (unexpected_keys_of ma sd)
                (flat_map (mismatch_msgs sd) (signature (state_dict ma))))
      as [(_ & Hmiss & _ & Hmsgs) | [Hraise _]]; [|congruence].
    by apply load_entries_same_signature.
Qed.

Lemma signature_Network (init init' : Init) (i o : N) (hs : list N) :
  signature (state_dict (Network init i o hs))
  = signature (state_dict (Network init' i o hs)).
Proof.
  pose proof (signature_rebuild init (Network init' i o hs)
                (Network_wf init' i o hs)) as H.
  rewrite Network_input_size in H.
  unfold model_hidden_sizes, model_output_size in H. simpl in H.
  by rewrite out_features_build_hidden in H.
Qed.

Lemma load_checkpoint_saved (init : Init) (m : Net) (path : string)
    (fs : gmap string PyDict) :
  fs !! path = Some (checkpoint m) →
  load_checkpoint init fs path
  = let '(model, outcome) :=
      load_state_dict (Network init 784 10 (model_hidden_sizes m))
        (state_dict m) in
    bind outcome (λ _, inr model).
Proof. intros Hfs. unfold load_checkpoint, torch_load. by rewrite Hfs. Qed.

End roundtrip.

(** C1, as the code has it: for every well-formed model with input size 784
    and output size 10, loading the checkpoint that was saved from it
    returns a model whose state dict (names, shapes and elements) is the
    state dict of the model at save time. *)
Theorem C1_save_load_roundtrip (init : Init) (m : Net) (path : string)
    (fs : gmap string PyDict) :
  wf_model m → model_input_size m = 784%N → model_output_size m = 10%N →
  ∃ m', load_checkpoint init (save_checkpoint m path fs) path = inr m'
        ∧ state_dict m' = state_dict m.
Proof.
  intros Hwf Hin Hout.
  rewrite (load_checkpoint_saved init m)
    by apply lookup_insert_eq.
  pose proof (signature_rebuild init m Hwf) as Hsig.
  rewrite Hin, Hout in Hsig.
  destruct (load_state_dict_self _ _ Hsig) as [Hok Hsd].
  destruct (load_state_dict (Network init 784 10 (model_hidden_sizes m))
              (state_dict m)) as [m' outcome].
  simpl in *. subst outcome. by exists m'.
Qed.

Lemma C1_save_load_roundtrip_witness :
  ∃ m', load_checkpoint init1
          (save_checkpoint (Network init0 784 10 [3]%N) "checkpoint.pth" ∅)
          "checkpoint.pth" = inr m'
        ∧ state_dict m' = state_dict (Network init0 784 10 [3]%N).
Proof.
  apply (C1_save_load_roundtrip init1 (Network init0 784 10 [3]%N)
           "checkpoint.pth" ∅).
  - simpl. repeat split; reflexivity.
  - reflexivity.
  - reflexivity.
Defined.

(** C1 fails as stated: the checkpoint of a network built with input size 4
    and output size 2 records the sizes 784 and 10, and loading it
    raises. *)
Lemma C1_roundtrip_counterexample :
  let m := Network init0 4 2 [3]%N in
  ¬ (∃ m', load_checkpoint init1 (save_checkpoint m "checkpoint.pth" ∅)
             "checkpoint.pth" = inr m'
           ∧ state_dict m' = state_dict m).
Proof.
  intros m (m' & Hload & _).
  rewrite (load_checkpoint_saved init1 m) in Hload
    by apply lookup_insert_eq.
  vm_compute in Hload. discriminate.
Qed.

(** A model saved to two destinations gives two files that load alike,
    whatever initial values the two loads draw: either both return a model
    and the two state dicts are equal, or both raise the same exception. *)
Lemma two_destinations_same_outcome (init init' : Init) (m : Net)
    (path1 path2 : string) (fs : gmap string PyDict) :
  let fs' := save_checkpoint m path2 (save_checkpoint m path1 fs) in
  match load_checkpoint init fs' path1, load_checkpoint init' fs' path2 with
  | inr m1, inr m2 => state_dict m1 = state_dict m2
  | inl e1, inl e2 => e1 = e2
  | _, _ => False
  end.
Proof.
  intros fs'. subst fs'.
  rewrite (load_checkpoint_saved init m), (load_checkpoint_saved init' m).
  2: { unfold save_checkpoint, torch_save. apply lookup_insert_eq. }
  2: { unfold save_checkpoint, torch_save. rewrite lookup_insert.
       case_decide; [done|apply lookup_insert_eq]. }
  destruct (load_state_dict_signature
              (Network init 784 10 (model_hidden_sizes m))
              (Network init' 784 10 (model_hidden_sizes m))
              (state_dict m) (signature_Network _ _ _ _ _)) as [Hout Hsd].
  destruct (load_state_dict (Network init 784 10 (model_hidden_sizes m))
              (state_dict m)) as [m1 out1].
  destruct (load_state_dict (Network init' 784 10 (model_hidden_sizes m))
              (state_dict m)) as [m2 out2].
  simpl in *. subst out2. destruct out1 as [e|ik]; simpl; [done|].
  by eapply Hsd.
Qed.

(** C7, as the code has it: a well-formed model with input size 784 and
    output size 10 that is saved to two destinations gives two files that
    both load, whatever initial values the two loads draw, and the two
    loaded models have the parameters of the saved model, hence equal
    parameters. *)
Theorem C7_two_destinations (init init' : Init) (m : Net)
    (path1 path2 : string) (fs : gmap string PyDict) :
  wf_model m → model_input_size m = 784%N → model_output_size m = 10%N →
  let fs' := save_checkpoint m path2 (save_checkpoint m path1 fs) in
  ∃ m1 m2,
    load_checkpoint init fs' path1 = inr m1
    ∧ load_checkpoint init' fs' path2 = inr m2
    ∧ state_dict m1 = state_dict m
    ∧ state_dict m2 = state_dict m
    ∧ state_dict m1 = state_dict m2.
Proof.
  intros Hwf Hin Hout fs'. subst fs'.
  assert (Hload : ∀ (i0 : Init) (fs0 : gmap string PyDict) (p : string),
            fs0 !! p = Some (checkpoint m) →
            ∃ m', load_checkpoint i0 fs0 p = inr m'
                  ∧ state_dict m' = state_dict m).
  { intros i0 fs0 p Hfs. rewrite (load_checkpoint_saved i0 m) by done.
    pose proof (signature_rebuild i0 m Hwf) as Hsig.
    rewrite Hin, Hout in Hsig.
    destruct (load_state_dict_self _ _ Hsig) as [Hok Hsd].
    destruct (load_state_dict (Network i0 784 10 (model_hidden_sizes m))
                (state_dict m)) as [m' outcome].
    simpl in *. subst outcome. by exists m'. }
  destruct (Hload init
              (save_checkpoint m path2 (save_checkpoint m path1 fs)) path1)
    as (m1 & Hl1 & Hs1).
  { unfold save_checkpoint, torch_save. rewrite lookup_insert.
    case_decide; [done|apply lookup_insert_eq]. }
  destruct (Hload init'
              (save_checkpoint m path2 (save_checkpoint m path1 fs)) path2)
    as (m2 & Hl2 & Hs2).
  { unfold save_checkpoint, torch_save. apply lookup_insert_eq. }
  exists m1, m2. split_and!; [done..|]. by rewrite Hs1, Hs2.
Qed.

Lemma C7_two_destinations_witness :
  ∃ m1 m2,
    load_checkpoint init0
      (save_checkpoint (Network init0 784 10 [3]%N) "b.pth"
         (save_checkpoint (Network init0 784 10 [3]%N) "a.pth" ∅))
      "a.pth" = inr m1
    ∧ load_checkpoint init1
        (save_checkpoint (Network init0 784 10 [3]%N) "b.pth"
           (save_checkpoint (Network init0 784 10 [3]%N) "a.pth" ∅))
        "b.pth" = inr m2
    ∧ state_dict m1 = state_dict (Network init0 784 10 [3]%N)
    ∧ state_dict m2 = state_dict (Network init0 784 10 [3]%N)
    ∧ state_dict m1 = state_dict m2.
Proof.
  apply (C7_two_destinations init0 init1 (Network init0 784 10 [3]%N)
           "a.pth" "b.pth" ∅).
  - simpl. repeat split; reflexivity.
  - reflexivity.
  - reflexivity.
Defined.

(** C7 fails as stated: a network built with input size 4 and output size 2
    is saved to two destinations with the sizes 784 and 10, and neither
    file loads to a model. *)
Lemma C7_two_destinations_counterexample :
  let m := Network init0 4 2 [3]%N in
  let fs' := save_checkpoint m "b.pth" (save_checkpoint m "a.pth" ∅) in
  ¬ (∃ m1 m2,
       load_checkpoint init0 fs' "a.pth" = inr m1
       ∧ load_checkpoint init1 fs' "b.pth" = inr m2
       ∧ state_dict m1 = state_dict m2).
Proof.
  intros m fs' (m1 & m2 & Hl1 & _).
  rewrite (load_checkpoint_saved init0 m) in Hl1.
  - vm_compute in Hl1. discriminate.
  - unfold fs', save_checkpoint, torch_save.
    rewrite lookup_insert_ne by done. apply lookup_insert_eq.
Qed.

(** * The training pass *)

Section training_facts.

Context {G P B : Type}.
Context (gzero : G) (gadd : G → G → G).
Context (grad_loss : P → B → G) (update : P → G → P).

#[local] Abbreviation run := (train gzero gadd grad_loss update).
#[local] Abbreviation grads := (batch_grads gzero gadd grad_loss update).

Lemma grad_step (st : TrainState) : grad (step update st) = grad st.
Proof. unfold step. by destruct (grad st) eqn:Hg. Qed.

Lemma batch_grads_snoc (reset : bool) (bs : list B) (b : B)
    (st : TrainState) :
  grads reset st (bs ++ [b])
  = grads reset st bs ++ [grad_loss (params (run reset st bs)) b].
Proof.
  revert st. induction bs as [|b0 bs IH]; intros st; [done|].
  simpl. by rewrite IH.
Qed.

(** Without a reset the stored gradient after a run is the stored gradient
    before it plus the gradients of all its batches. *)
Lemma grad_run_no_reset (bs : list B) (st : TrainState) (acc : G) :
  grad st = Some acc →
  grad (run false st bs) = Some (fold_left gadd (grads false st bs) acc).
Proof.
  revert st acc. induction bs as [|b bs IH]; intros st acc Hacc; [done|].
  simpl. apply IH.
  unfold training_pass, before_step. rewrite grad_step. simpl.
  by rewrite Hacc.
Qed.

Lemma grad_run_no_reset_None (bs : list B) (st : TrainState) :
  grad st = None → grad (run false st bs) = gsum gadd (grads false st bs).
Proof.
  intros Hnone. destruct bs as [|b bs]; [done|].
  simpl. apply grad_run_no_reset.
  unfold training_pass, before_step. rewrite grad_step. simpl.
  by rewrite Hnone.
Qed.

End training_facts.

(** C9: gradients accumulate across backward passes.  With
    [optimizer.zero_grad()] at the start of the pass, the gradient that
    [optimizer.step()] finds and applies is the gradient of the loss of the
    current batch alone, at every pass of a run; without it, in a run that
    starts with no stored gradient, it is the sum of the gradients of the
    current batch and of all earlier backward passes.  Adding to the zero
    gradient is taken to leave a gradient as it is. *)
Theorem C9_zero_grad {G P B : Type} (gzero : G) (gadd : G → G → G)
    (grad_loss : P → B → G) (update : P → G → P) :
  (∀ g, gadd gzero g = g) →
  (∀ (st : TrainState) (bs : list B) (b : B),
     let st' := train gzero gadd grad_loss update true st bs in
     grad (before_step gzero gadd grad_loss true st' b)
     = Some (grad_loss (params st') b)
     ∧ params (training_pass gzero gadd grad_loss update true st' b)
       = update (params st') (grad_loss (params st') b))
  ∧ (∀ (st : TrainState) (bs : list B) (b : B),
       grad st = None →
       let st' := train gzero gadd grad_loss update false st bs in
       ∃ total,
         gsum gadd
           (batch_grads gzero gadd grad_loss update false st (bs ++ [b]))
         = Some total
         ∧ grad (before_step gzero gadd grad_loss false st' b) = Some total
         ∧ params (training_pass gzero gadd grad_loss update false st' b)
           = update (params st') total).
Proof.
  intros Hzero. split.
  - intros st bs b st'.
    assert (Hg : grad (before_step gzero gadd grad_loss true st' b)
                 = Some (grad_loss (params st') b)).
    { unfold before_step, zero_grad, backward. simpl.
      destruct (grad st'); [by rewrite Hzero|done]. }
    split; [done|]. unfold training_pass, step. by rewrite Hg.
  - intros st bs b Hnone st'. rewrite batch_grads_snoc. subst st'.
    pose proof (grad_run_no_reset_None gzero gadd grad_loss update bs st Hnone)
      as Hrun.
    set (st' := train gzero gadd grad_loss update false st bs) in *.
    assert (Hg : grad (before_step gzero gadd grad_loss false st' b)
                 = gsum gadd
                     (batch_grads gzero gadd grad_loss update false st bs
                        ++ [grad_loss (params st') b])).
    { unfold before_step, backward. simpl. rewrite Hrun.
      destruct (batch_grads gzero gadd grad_loss update false st bs)
        as [|g gs]; [done|].
      simpl. by rewrite fold_left_app. }
    rewrite <-Hg.
    destruct (grad (before_step gzero gadd grad_loss false st' b))
      as [total|] eqn:Hb.
    + exists total. split_and!; [done..|].
      unfold training_pass, step. by rewrite Hb.
    + unfold before_step, backward in Hb. simpl in Hb.
      by destruct (grad st').
Qed.

Lemma C9_zero_grad_witness :
  (∀ g : Z, (0 + g)%Z = g)
  ∧ (∀ (st : TrainState) (bs : list Z) (b : Z),
       let st' := train 0%Z Z.add (λ p b, (2 * (p - b))%Z) Z.sub true st bs in
       grad (before_step 0%Z Z.add (λ p b, (2 * (p - b))%Z) true st' b)
       = Some (2 * (params st' - b))%Z
       ∧ params (training_pass 0%Z Z.add (λ p b, (2 * (p - b))%Z) Z.sub true
                   st' b)
         = (params st' - 2 * (params st' - b))%Z).
Proof.
  split; [reflexivity|].
  apply (C9_zero_grad 0%Z Z.add (λ p b, (2 * (p - b))%Z) Z.sub).
  reflexivity.
Defined.

(** * Further properties of load_state_dict *)

Section load_facts.

Lemma modulelist_state_inj (prefix : string) (ls ls' : list Linear)
    (idx : nat) :
  Forall2 same_sizes ls ls' →
  modulelist_state prefix idx ls = modulelist_state prefix idx ls' →
  ls = ls'.
Proof.
  intros Hsame. revert idx.
  induction Hsame as [|l l' ls ls' (Hi & Ho & _ & _) _ IH]; intros idx Heq;
    [done|].
  simpl in Heq. injection Heq as Hw Hb Hrest.
  f_equal; [|by eapply IH].
  destruct l, l'. simpl in *. by subst.
Qed.

(** A model is determined by its layer sizes and its state dict. *)
Lemma state_dict_inj (m m' : Net) :
  Forall2 same_sizes (layers m) (layers m') →
  state_dict m = state_dict m' → m = m'.
Proof.
  unfold layers, state_dict. intros Hsame Heq.
  assert (Hlen : length (hidden_layers m) = length (hidden_layers m')).
  { apply Forall2_length in Hsame. rewrite !length_app in Hsame.
    simpl in Hsame. lia. }
  apply Forall2_app_inv in Hsame as [Hh Ho]; [|done].
  apply app_inj_1 in Heq as [Hhl Hout];
    [|by rewrite !length_modulelist_state, Hlen].
  apply modulelist_state_inj in Hhl; [|done].
  apply Forall2_cons_1 in Ho as [(Hi & Hof & _ & _) _].
  injection Hout as Hw Hb.
  destruct m as [hl [i o w b]], m' as [hl' [i' o' w' b']]. simpl in *.
  by subst.
Qed.

Lemma same_sizes_refl (l : Linear) : same_sizes l l.
Proof. by repeat split. Qed.

Lemma same_sizes_sym (l l' : Linear) : same_sizes l l' → same_sizes l' l.
Proof. intros (H1 & H2 & H3 & H4). repeat split; congruence. Qed.

Lemma same_sizes_trans (l1 l2 l3 : Linear) :
  same_sizes l1 l2 → same_sizes l2 l3 → same_sizes l1 l3.
Proof.
  intros (H1 & H2 & H3 & H4) (H5 & H6 & H7 & H8).
  repeat split; congruence.
Qed.

Lemma sd_get_None (sd : StateDict) (k : string) :
  sd_get sd k = None ↔ k ∉ keys sd.
Proof.
  induction sd as [|[k' t] sd IH]; simpl.
  - split; [intros _; apply not_elem_of_nil|done].
  - rewrite not_elem_of_cons. case_bool_decide as Hk.
    + split; [done|]. by intros [? _].
    + rewrite IH. split; [by intros ?; split|by intros [_ ?]].
Qed.

Lemma sd_get_Some_keys (sd : StateDict) (k : string) (t : Tensor) :
  sd_get sd k = Some t → k ∈ keys sd.
Proof.
  intros Hget. destruct (decide (k ∈ keys sd)) as [|Hn]; [done|].
  apply sd_get_None in Hn. congruence.
Qed.

Lemma missing_of_filter (sd : StateDict) (ks : list string) :
  flat_map (missing_of sd) ks = filter (λ k, sd_get sd k = None) ks.
Proof.
  induction ks as [|k ks IH]; [done|].
  simpl. unfold missing_of at 1. rewrite IH.
  destruct (sd_get sd k) as [t|] eqn:Hk.
  - by rewrite filter_cons_False by (by rewrite Hk).
  - by rewrite filter_cons_True by done.
Qed.


Lemma load_entry_idem (sd : StateDict) (kp : string * Tensor) :
  load_entry sd (load_entry sd kp) = load_entry sd kp.
Proof.
  destruct kp as [k p]. unfold load_entry, size_eqb. simpl.
  destruct (sd_get sd k) as [t|]; [|done].
  destruct (decide (shape t = shape p)) as [Hs|Hs].
  - rewrite (bool_decide_eq_true_2 (shape t = shape p)) by done. simpl.
    by rewrite bool_decide_eq_true_2.
  - rewrite (bool_decide_eq_false_2 (shape t = shape p)) by done.
    by rewrite bool_decide_eq_false_2.
Qed.

Lemma filter_missing_nil (ks : list string) :
  filter (λ k, sd_get [] k = None) ks = ks.
Proof.
  induction ks as [|k ks IH]; [done|].
  rewrite filter_cons_True by done. by rewrite IH.
Qed.

Lemma mismatch_msgs_empty (sg : list (string * Size)) :
  flat_map (mismatch_msgs []) sg = [].
Proof. induction sg as [|ks sg IH]; [done|]. simpl. by rewrite IH. Qed.

End load_facts.

(** X1: loading a model's own state dict (the cells that save the state
    dict, read it back and load it) raises nothing, reports no missing and
    no unexpected key, and leaves the model exactly as it was. *)
Theorem X1_load_own_state_dict (m : Net) (path : string)
    (fs : gmap string PyObj) :
  torch_load_any (torch_save_any (ObjStateDict (state_dict m)) path fs) path
  = inr (ObjStateDict (state_dict m))
  ∧ load_state_dict m (state_dict m) = (m, inr (mkIncompatibleKeys [] [])).
Proof.
  split.
  - unfold torch_load_any, torch_save_any. by rewrite lookup_insert_eq.
  - destruct (load_state_dict_self m m eq_refl) as [Hout Hsd].
    pose proof (load_state_dict_same (state_dict m) m) as Hsame.
    destruct (load_state_dict m (state_dict m)) as [m' outcome].
    simpl in *. subst outcome. f_equal.
    symmetry. by apply state_dict_inj.
Qed.



(** X3: loading the same state dict a second time changes nothing more and
    answers as the first time, whether the load raises or not. *)
Theorem X3_load_twice (m : Net) (sd : StateDict) :
  load_state_dict (load_state_dict m sd).1 sd = load_state_dict m sd.
Proof.
  set (m' := (load_state_dict m sd).1).
  destruct (load_state_dict_spec sd m) as [Hsd Hout].
  destruct (load_state_dict_spec sd m') as [Hsd' Hout'].
  fold m' in Hsd.
  assert (Hsig : signature (state_dict m') = signature (state_dict m))
    by (rewrite Hsd; apply signature_load_entry).
  assert (Hkeys : keys (state_dict m') = keys (state_dict m))
    by (by rewrite <-!keys_signature, Hsig).
  assert (Hun : unexpected_keys_of m' sd = unexpected_keys_of m sd)
    by (unfold unexpected_keys_of; by rewrite Hkeys).
  rewrite Hsig, Hkeys, Hun, <-Hout in Hout'.
  assert (Hm : (load_state_dict m' sd).1 = m').
  { symmetry. apply state_dict_inj; [apply load_state_dict_same|].
    rewrite Hsd', Hsd, map_map. apply map_ext. intros kp.
    symmetry. apply load_entry_idem. }
  destruct (load_state_dict m' sd) as [m'' out''].
  destruct (load_state_dict m sd) as [m1 out1]. simpl in *.
  by subst.
Qed.

(** X4: a parameter of the model that the state dict does not hold makes
    the load raise; the report starts with one line that lists, in model
    order, exactly the names the state dict lacks, and such a parameter is
    left as it was.  Loading an empty state dict lists every parameter and
    leaves the whole model as it was. *)
Theorem X4_missing_keys (m : Net) (sd : StateDict) (k : string)
    (p : Tensor) :
  sd_get (state_dict m) k = Some p → sd_get sd k = None →
  (∃ msgs,
     (load_state_dict m sd).2
     = inl (RuntimeError
              (MissingKeys
                 (filter (λ k, sd_get sd k = None) (keys (state_dict m)))
               :: msgs))
     ∧ k ∈ filter (λ k, sd_get sd k = None) (keys (state_dict m)))
  ∧ sd_get (state_dict (load_state_dict m sd).1) k = Some p
  ∧ load_state_dict m []
    = (m, inl (RuntimeError [MissingKeys (keys (state_dict m))])).
Proof.
  intros Hp Hk. destruct (load_state_dict_spec sd m) as [Hsd Hout].
  assert (Hin : k ∈ filter (λ k, sd_get sd k = None) (keys (state_dict m))).
  { apply list_elem_of_filter. split; [done|]. by eapply sd_get_Some_keys. }
  split_and!.
  - rewrite Hout, missing_of_filter. unfold raise_or_return, final_msgs.
    destruct (filter (λ k, sd_get sd k = None) (keys (state_dict m)))
      as [|k0 ks]; [by apply elem_of_nil in Hin|].
    by eexists.
  - rewrite Hsd, sd_get_load_entry, Hp. unfold load_entry. simpl.
    by rewrite Hk.
  - destruct (load_state_dict_spec [] m) as [Hsd0 Hout0].
    pose proof (load_state_dict_same [] m) as Hsame.
    destruct (load_state_dict m []) as [m' out']. simpl in *. f_equal.
    + symmetry. apply state_dict_inj; [done|]. rewrite Hsd0.
      rewrite <-(map_id (state_dict m)) at 1. apply map_ext.
      by intros [k' p'].
    + rewrite Hout0, missing_of_filter.
      rewrite filter_missing_nil, mismatch_msgs_empty.
      unfold raise_or_return, final_msgs, unexpected_keys_of.
      simpl. destruct (keys (state_dict m)) eqn:Hks; [|done].
      rewrite keys_state_dict in Hks. by destruct (flat_map _ _).
Qed.

Lemma X4_missing_keys_witness :
  (∃ msgs,
     (load_state_dict (Network init0 4 2 [3]%N) []).2
     = inl (RuntimeError
              (MissingKeys
                 (filter (λ k, sd_get [] k = None)
                    (keys (state_dict (Network init0 4 2 [3]%N))))
               :: msgs))
     ∧ "output.bias"
       ∈ filter (λ k, sd_get [] k = None)
           (keys (state_dict (Network init0 4 2 [3]%N))))
  ∧ sd_get (state_dict (load_state_dict (Network init0 4 2 [3]%N) []).1)
      "output.bias"
    = Some (fresh init0 "output.bias" [2]%N)
  ∧ load_state_dict (Network init0 4 2 [3]%N) []
    = (Network init0 4 2 [3]%N,
       inl (RuntimeError
              [MissingKeys (keys (state_dict (Network init0 4 2 [3]%N)))])).
Proof.
  apply (X4_missing_keys (Network init0 4 2 [3]%N) [] "output.bias"
           (fresh init0 "output.bias" [2]%N)); reflexivity.
Defined.

(** * Further properties of load_checkpoint *)

Section checkpoint_facts.

Lemma layers_same_inv (m m' : Net) :
  Forall2 same_sizes (layers m) (layers m') →
  Forall2 same_sizes (hidden_layers m) (hidden_layers m')
  ∧ same_sizes (output m) (output m').
Proof.
  unfold layers. intros Hsame.
  assert (Hlen : length (hidden_layers m) = length (hidden_layers m')).
  { apply Forall2_length in Hsame. rewrite !length_app in Hsame.
    simpl in Hsame. lia. }
  apply Forall2_app_inv in Hsame as [Hh Ho]; [|done].
  by apply Forall2_cons_1 in Ho as [Ho _].
Qed.

Lemma features_same (ls ls' : list Linear) :
  Forall2 same_sizes ls ls' → map features ls' = map features ls.
Proof.
  induction 1 as [|l l' ls ls' (Hi & Ho & _) _ IH]; [done|].
  simpl. unfold features at 1 3. by rewrite Hi, Ho, IH.
Qed.

Lemma descriptor_same (m m' : Net) :
  Forall2 same_sizes (layers m) (layers m') → descriptor m' = descriptor m.
Proof.
  intros [Hh (Hi & Ho & _)]%layers_same_inv.
  unfold descriptor, model_input_size, model_output_size, model_hidden_sizes.
  rewrite Ho. f_equal; [f_equal|].
  - destruct Hh as [|l l' ls ls' (Hli & _) _]; [done|]. done.
  - induction Hh as [|l l' ls ls' (_ & Hlo & _) _ IH]; [done|].
    simpl. by rewrite Hlo, IH.
Qed.

Lemma descriptor_Network (init : Init) (i o : N) (hs : list N) :
  descriptor (Network init i o hs) = (i, o, hs).
Proof.
  unfold descriptor. rewrite Network_input_size.
  unfold model_output_size, model_hidden_sizes. simpl.
  by rewrite out_features_build_hidden.
Qed.

Lemma signature_same (m m' : Net) :
  Forall2 same_sizes (layers m) (layers m') →
  signature (state_dict m') = signature (state_dict m).
Proof.
  intros [Hh (_ & _ & Hw & Hb)]%layers_same_inv.
  unfold state_dict, signature. rewrite !map_app. f_equal.
  - generalize 0. induction Hh as [|l l' ls ls' (_ & _ & Hlw & Hlb) _ IH];
      intros idx; [done|].
    simpl. by rewrite Hlw, Hlb, IH.
  - simpl. by rewrite Hw, Hb.
Qed.

(** Loading a state dict with the names and shapes of the model raises
    nothing and leaves exactly the stored parameters. *)
Lemma load_state_dict_matching (m0 : Net) (sd : StateDict) :
  signature (state_dict m0) = signature sd →
  (load_state_dict m0 sd).2 = inr (mkIncompatibleKeys [] [])
  ∧ state_dict (load_state_dict m0 sd).1 = sd.
Proof.
  intros Hsig.
  assert (Hkeys : keys sd = keys (state_dict m0))
    by (by rewrite <-!keys_signature, Hsig).
  destruct (load_state_dict_spec sd m0) as [Hsd Hout].
  destruct (load_entries_self sd (state_dict m0) sd)
    as (Hmap & Hmiss & Hmsgs); [|done|].
  { intros k t. apply sd_get_NoDup. rewrite Hkeys.
    apply NoDup_keys_state_dict. }
  by rewrite Hsd, Hout, Hmap, Hmiss, Hmsgs, unexpected_keys_same.
Qed.

Lemma load_checkpoint_record (init : Init) (fs : gmap string PyDict)
    (path : string) (d : PyDict) (i o : N) (h : list N) (sd : StateDict) :
  fs !! path = Some d →
  dict_get d "input_size" = inr (PInt i) →
  dict_get d "output_size" = inr (PInt o) →
  dict_get d "hidden_layers" = inr (PList h) →
  dict_get d "state_dict" = inr (POrderedDict sd) →
  load_checkpoint init fs path
  = let '(model, outcome) := load_state_dict (Network init i o h) sd in
    bind outcome (λ _, inr model).
Proof.
  intros Hfs Hi Ho Hh Hsd. unfold load_checkpoint, torch_load.
  rewrite Hfs. simpl. rewrite Hi, Ho, Hh. simpl. by rewrite Hsd.
Qed.

Lemma no_mismatch_signature (sd es es' : StateDict) :
  (∀ k t, (k, t) ∈ es' → sd_get sd k = Some t) →
  keys es = keys es' →
  flat_map (mismatch_msgs sd) (signature es) = [] →
  signature es = signature es'.
Proof.
  revert es'. induction es as [|[k p] es IH]; intros [|[k' t] es'] Hget Hkeys;
    try done.
  injection Hkeys as -> Hkeys.
  change (signature ((k', p) :: es)) with ((k', shape p) :: signature es).
  change (signature ((k', t) :: es')) with ((k', shape t) :: signature es').
  cbn [flat_map]. intros [Hm Hrest]%app_eq_nil.
  pose proof (Hget k' t (list_elem_of_here _ _)) as Hk.
  unfold mismatch_msgs, size_eqb in Hm. simpl in Hm. rewrite Hk in Hm.
  case_bool_decide as Hs; [|done].
  rewrite Hs. f_equal. apply IH; [|done..].
  intros k t' Hin. apply Hget. by apply list_elem_of_further.
Qed.

Lemma signature_Network_inj (init init' : Init) (i i' o o' : N)
    (hs : list N) :
  signature (state_dict (Network init i o hs))
  = signature (state_dict (Network init' i' o' hs)) →
  i = i' ∧ o = o'.
Proof.
  unfold state_dict, Network, signature. cbn [hidden_layers output].
  rewrite !map_app. intros Heq.
  apply app_inj_2 in Heq as [Hh Ho]; [|done].
  simpl in Ho. injection Ho as Ho Hlast _.
  split; [|done].
  destruct hs as [|h hs]; [done|].
  simpl in Hh. by injection Hh.
Qed.

Lemma build_hidden_same (init : Init) (ls : list Linear) (idx : nat)
    (prev : N) :
  chained prev ls →
  Forall2 same_sizes ls (build_hidden init idx prev (map out_features ls)).
Proof.
  revert idx prev. induction ls as [|l ls IH]; intros idx prev;
    [constructor|].
  intros (Hin & [Hw Hb] & Hrest). simpl. constructor; [|by apply IH].
  repeat split; simpl; congruence.
Qed.

Lemma rebuild_same (init : Init) (m : Net) :
  wf_model m →
  Forall2 same_sizes (layers m)
    (layers (Network init (model_input_size m) (model_output_size m)
               (model_hidden_sizes m))).
Proof.
  unfold wf_model, layers. intros (Hch & Hlast & [Hw Hb])%chained_app_last.
  unfold Network, model_hidden_sizes, model_output_size.
  cbn [hidden_layers output].
  apply Forall2_app; [by apply build_hidden_same|].
  constructor; [|constructor]. repeat split; simpl; congruence.
Qed.

Lemma load_saved_model (init : Init) (m : Net) (path : string)
    (fs : gmap string PyDict) :
  wf_model m → model_input_size m = 784%N → model_output_size m = 10%N →
  load_checkpoint init (save_checkpoint m path fs) path = inr m.
Proof.
  intros Hwf Hin Hout.
  rewrite (load_checkpoint_saved init m) by apply lookup_insert_eq.
  pose proof (signature_rebuild init m Hwf) as Hsig.
  pose proof (rebuild_same init m Hwf) as Hsame.
  rewrite Hin, Hout in Hsig, Hsame.
  destruct (load_state_dict_self _ _ Hsig) as [Hok Hsd].
  pose proof (load_state_dict_same (state_dict m)
                (Network init 784 10 (model_hidden_sizes m))) as Hsame'.
  destruct (load_state_dict (Network init 784 10 (model_hidden_sizes m))
              (state_dict m)) as [m' outcome].
  simpl in *. subst outcome. simpl. f_equal.
  symmetry. apply state_dict_inj; [|done].
  eapply Forall2_trans; [|done..].
  intros l1 l2 l3. apply same_sizes_trans.
Qed.

Lemma not_record_key (m : Net) (key : string) :
  key ∈ ["input_size"; "output_size"; "state_dict"] →
  sd_get (state_dict m) key = None.
Proof.
  intros Hkey. apply sd_get_None. rewrite keys_state_dict. intros Hin.
  rewrite !elem_of_cons in Hkey.
  apply elem_of_app in Hin as [Hin | Hin].
  - apply list_elem_of_In, in_flat_map in Hin as (i & _ & Hk).
    unfold item_key in Hk.
    destruct Hkey as [-> | [-> | [-> | Hnil]]];
      [| | |by apply elem_of_nil in Hnil];
      destruct Hk as [Hk | [Hk | []]];
      apply (f_equal Stdlib.Strings.String.list_ascii_of_string) in Hk;
      rewrite !list_of_append in Hk; discriminate.
  - rewrite !elem_of_cons in Hin.
    destruct Hkey as [-> | [-> | [-> | Hnil]]];
      [| | |by apply elem_of_nil in Hnil];
      destruct Hin as [Hi | [Hi | Hnil]];
      try discriminate; by apply elem_of_nil in Hnil.
Qed.

Lemma load_checkpoint_any_record (init : Init) (fs : gmap string PyObj)
    (path : string) (d : PyDict) :
  fs !! path = Some (ObjRecord d) →
  load_checkpoint_any init fs path
  = load_checkpoint init {[ path := d ]} path.
Proof.
  intros Hfs. unfold load_checkpoint_any, load_checkpoint, torch_load_any,
    torch_load.
  rewrite Hfs, lookup_singleton_eq. simpl.
  destruct (dict_get d "input_size") as [e|v1]; [done|]. simpl.
  destruct (dict_get d "output_size") as [e|v2]; [done|]. simpl.
  destruct (dict_get d "hidden_layers") as [e|v3]; [done|]. simpl.
  destruct (Network_call init v1 v2 v3) as [e|model]; [done|]. simpl.
  destruct (dict_get d "state_dict") as [e|v4]; [done|]. simpl.
  by destruct (as_state_dict v4).
Qed.

Lemma fit_same (upds : list (string → list Z → list Z)) (m : Net) :
  Forall2 same_sizes (layers m) (layers (fit upds m)).
Proof.
  unfold fit. revert m. induction upds as [|upd upds IH]; intros m.
  - simpl. apply Forall_Forall2_diag, Forall_forall. intros l _.
    apply same_sizes_refl.
  - simpl. eapply Forall2_trans; [|apply optimizer_step_same|apply IH].
    intros l1 l2 l3. apply same_sizes_trans.
Qed.

Lemma sig_get_signature (sd : StateDict) (k : string) :
  sig_get (signature sd) k = shape <$> sd_get sd k.
Proof.
  induction sd as [|[k' t] sd IH]; [done|]. simpl.
  by case_bool_decide.
Qed.

Lemma load_entry_match (sd : StateDict) (k : string) (p t : Tensor) :
  sd_get sd k = Some t → shape t = shape p → (load_entry sd (k, p)).2 = t.
Proof.
  intros Hget Hs. unfold load_entry, size_eqb. simpl.
  rewrite Hget, bool_decide_eq_true_2 by done.
  unfold copy_. rewrite <-Hs. by destruct t.
Qed.

Lemma load_entry_mismatch (sd : StateDict) (k : string) (p t : Tensor) :
  sd_get sd k = Some t → shape t ≠ shape p → (load_entry sd (k, p)).2 = p.
Proof.
  intros Hget Hs. unfold load_entry, size_eqb. simpl.
  by rewrite Hget, bool_decide_eq_false_2.
Qed.

Lemma signature_512 (init : Init) :
  signature (state_dict (Network init 784 10 [512; 256; 128]%N))
  = [("hidden_layers.0.weight", [512; 784]%N);
     ("hidden_layers.0.bias", [512]%N);
     ("hidden_layers.1.weight", [256; 512]%N);
     ("hidden_layers.1.bias", [256]%N);
     ("hidden_layers.2.weight", [128; 256]%N);
     ("hidden_layers.2.bias", [128]%N);
     ("output.weight", [10; 128]%N);
     ("output.bias", [10]%N)].
Proof. lazy. reflexivity. Qed.

Lemma signature_400 (init : Init) :
  signature (state_dict (Network init 784 10 [400; 200; 100]%N))
  = [("hidden_layers.0.weight", [400; 784]%N);
     ("hidden_layers.0.bias", [400]%N);
     ("hidden_layers.1.weight", [200; 400]%N);
     ("hidden_layers.1.bias", [200]%N);
     ("hidden_layers.2.weight", [100; 200]%N);
     ("hidden_layers.2.bias", [100]%N);
     ("output.weight", [10; 100]%N);
     ("output.bias", [10]%N)].
Proof. lazy. reflexivity. Qed.

End checkpoint_facts.

(** X5: [load_checkpoint] honours the descriptor of the record: for every
    record that holds sizes (i, o, h) and a state dict with the names and
    shapes of a network of these sizes, whatever i and o are, it returns a
    model with this descriptor whose state dict is the stored one. *)
Theorem X5_consistent_record (init : Init) (fs : gmap string PyDict)
    (path : string) (d : PyDict) (i o : N) (h : list N) (sd : StateDict) :
  fs !! path = Some d →
  dict_get d "input_size" = inr (PInt i) →
  dict_get d "output_size" = inr (PInt o) →
  dict_get d "hidden_layers" = inr (PList h) →
  dict_get d "state_dict" = inr (POrderedDict sd) →
  signature sd = signature (state_dict (Network init i o h)) →
  ∃ m', load_checkpoint init fs path = inr m'
        ∧ state_dict m' = sd ∧ descriptor m' = (i, o, h).
Proof.
  intros Hfs Hi Ho Hh Hsd Hsig.
  rewrite (load_checkpoint_record init fs path d i o h sd) by done.
  destruct (load_state_dict_matching (Network init i o h) sd) as [Hout Hst];
    [done|].
  pose proof (load_state_dict_same sd (Network init i o h)) as Hsame.
  destruct (load_state_dict (Network init i o h) sd) as [m' outcome].
  simpl in *. subst outcome. exists m'. split_and!; [done..|].
  by rewrite (descriptor_same _ _ Hsame), descriptor_Network.
Qed.

Lemma X5_consistent_record_witness :
  ∃ m', load_checkpoint init1
          {[ "model.pth" :=
               [("state_dict",
                 POrderedDict (state_dict (Network init0 4 2 [3]%N)));
                ("hidden_layers", PList [3%N]);
                ("output_size", PInt 2%N); ("input_size", PInt 4%N)] ]}
          "model.pth" = inr m'
        ∧ state_dict m' = state_dict (Network init0 4 2 [3]%N)
        ∧ descriptor m' = (4%N, 2%N, [3%N]).
Proof.
  apply (X5_consistent_record init1 _ "model.pth"
           [("state_dict",
             POrderedDict (state_dict (Network init0 4 2 [3]%N)));
            ("hidden_layers", PList [3%N]);
            ("output_size", PInt 2%N); ("input_size", PInt 4%N)]).
  - apply lookup_singleton_eq.
  - reflexivity.
  - reflexivity.
  - reflexivity.
  - reflexivity.
  - reflexivity.
Defined.

(** X6: for a well-formed model, the checkpoint the notebook's cell saves
    can be loaded back exactly when the model has input size 784 and output
    size 10. *)
Theorem X6_loadable_iff (init : Init) (m : Net) (path : string)
    (fs : gmap string PyDict) :
  wf_model m →
  (∃ m', load_checkpoint init (save_checkpoint m path fs) path = inr m')
  ↔ model_input_size m = 784%N ∧ model_output_size m = 10%N.
Proof.
  intros Hwf.
  rewrite (load_checkpoint_saved init m) by apply lookup_insert_eq.
  pose proof (signature_rebuild init m Hwf) as Hsig.
  split.
  - intros [m' Hload].
    destruct (load_state_dict_spec (state_dict m)
                (Network init 784 10 (model_hidden_sizes m)))
      as [_ Hout].
    destruct (load_state_dict (Network init 784 10 (model_hidden_sizes m))
                (state_dict m)) as [m1 outcome].
    simpl in *. destruct outcome as [e|ik]; [done|].
    match type of Hout with
    | _ = raise_or_return ?a ?b ?c =>
        destruct (raise_or_return_inv a b c)
          as [(_ & _ & _ & Hmsgs) | [Hr _]];
          [|rewrite Hr in Hout; discriminate]
    end.
    apply (no_mismatch_signature _ _ (state_dict m)) in Hmsgs.
    + rewrite <-Hsig in Hmsgs.
      by apply signature_Network_inj in Hmsgs as [<- <-].
    + intros k t. apply sd_get_NoDup, NoDup_keys_state_dict.
    + rewrite !keys_state_dict. simpl. unfold model_hidden_sizes.
      by rewrite length_build_hidden, length_map.
  - intros [Hin Hout]. rewrite Hin, Hout in Hsig.
    destruct (load_state_dict_self _ _ Hsig) as [Hok _].
    destruct (load_state_dict (Network init 784 10 (model_hidden_sizes m))
                (state_dict m)) as [m' outcome].
    simpl in *. subst outcome. by exists m'.
Qed.

Lemma X6_loadable_iff_witness :
  (∃ m', load_checkpoint init1
           (save_checkpoint (Network init0 4 2 [3]%N) "checkpoint.pth" ∅)
           "checkpoint.pth" = inr m')
  ↔ model_input_size (Network init0 4 2 [3]%N) = 784%N
    ∧ model_output_size (Network init0 4 2 [3]%N) = 10%N.
Proof.
  apply (X6_loadable_iff init1 (Network init0 4 2 [3]%N) "checkpoint.pth" ∅).
  simpl. repeat split; reflexivity.
Defined.

(** X7: for a well-formed model with input size 784 and output size 10,
    loading its saved checkpoint returns the model itself: layer sizes and
    parameters all equal, so that saving the loaded model writes the same
    record again. *)
Theorem X7_load_returns_model (init : Init) (m : Net) (path : string)
    (fs : gmap string PyDict) :
  wf_model m → model_input_size m = 784%N → model_output_size m = 10%N →
  load_checkpoint init (save_checkpoint m path fs) path = inr m
  ∧ ∀ m', load_checkpoint init (save_checkpoint m path fs) path = inr m' →
          checkpoint m' = checkpoint m.
Proof.
  intros Hwf Hin Hout.
  pose proof (load_saved_model init m path fs Hwf Hin Hout) as Hload.
  split; [done|]. intros m' Hm'. rewrite Hload in Hm'.
  by injection Hm' as <-.
Qed.

Lemma X7_load_returns_model_witness :
  load_checkpoint init1
    (save_checkpoint (Network init0 784 10 [3]%N) "checkpoint.pth" ∅)
    "checkpoint.pth" = inr (Network init0 784 10 [3]%N)
  ∧ ∀ m', load_checkpoint init1
            (save_checkpoint (Network init0 784 10 [3]%N) "checkpoint.pth" ∅)
            "checkpoint.pth" = inr m' →
          checkpoint m' = checkpoint (Network init0 784 10 [3]%N).
Proof.
  apply (X7_load_returns_model init1 (Network init0 784 10 [3]%N)
           "checkpoint.pth" ∅).
  - simpl. repeat split; reflexivity.
  - reflexivity.
  - reflexivity.
Defined.

(** X8: a file that holds a bare state dict, as
    [torch.save(model.state_dict(), 'checkpoint.pth')] writes it, is no
    checkpoint: [load_checkpoint] raises KeyError('input_size') on it, for
    every model.  On a file that holds a dictionary it does what it does
    with that dictionary. *)
Theorem X8_state_dict_file (init : Init) (m : Net) (path : string)
    (fs : gmap string PyObj) :
  load_checkpoint_any init
    (torch_save_any (ObjStateDict (state_dict m)) path fs) path
  = inl (KeyError "input_size")
  ∧ ∀ d, load_checkpoint_any init (torch_save_any (ObjRecord d) path fs) path
         = load_checkpoint init {[ path := d ]} path.
Proof.
  split.
  - unfold load_checkpoint_any, torch_load_any, torch_save_any.
    rewrite lookup_insert_eq. simpl.
    rewrite (not_record_key m "input_size"); [done|].
    apply list_elem_of_here.
  - intros d. apply load_checkpoint_any_record.
    unfold torch_save_any. apply lookup_insert_eq.
Qed.

(** X9: the cells of the notebook in the order they were run.  The network
    (784, 10, [512,256,128]) is built and trained, and its state dict is
    saved and read back; loading it into the trained network changes
    nothing.  The next cell rebinds [model] to a fresh
    (784, 10, [400,200,100]) network and its load raises; the cell after it
    saves the checkpoint of that model over the same file, and
    [load_checkpoint] returns a network with the layers the notebook
    prints, 784-400-200-100-10.  Its output bias is the one of the trained
    network; every other parameter has the initial values of the fresh
    network. *)
Theorem X9_notebook_run (init4 init10 init13 : Init)
    (upds : list (string → list Z → list Z)) (fs : gmap string PyObj) :
  let trained := fit upds (Network init4 784 10 [512; 256; 128]%N) in
  let fs7 :=
    torch_save_any (ObjStateDict (state_dict trained)) "checkpoint.pth" fs in
  let fresh10 := Network init10 784 10 [400; 200; 100]%N in
  let model10 := (load_state_dict fresh10 (state_dict trained)).1 in
  let fs11 :=
    torch_save_any (ObjRecord (checkpoint model10)) "checkpoint.pth" fs7 in
  torch_load_any fs7 "checkpoint.pth" = inr (ObjStateDict (state_dict trained))
  ∧ (∃ msgs, (load_state_dict fresh10 (state_dict trained)).2
             = inl (RuntimeError msgs))
  ∧ ∃ m13,
      load_checkpoint_any init13 fs11 "checkpoint.pth" = inr m13
      ∧ map features (layers m13)
        = [(784, 400); (400, 200); (200, 100); (100, 10)]%N
      ∧ is_Some (sd_get (state_dict m13) "output.bias")
      ∧ sd_get (state_dict m13) "output.bias"
        = sd_get (state_dict trained) "output.bias"
      ∧ ∀ k, k ≠ "output.bias" →
             sd_get (state_dict m13) k = sd_get (state_dict fresh10) k.
Proof.
  intros trained fs7 fresh10 model10 fs11.
  set (sd := state_dict trained) in *.
  assert (Hsig512 : signature sd = signature
            (state_dict (Network init4 784 10 [512; 256; 128]%N)))
    by apply signature_same, fit_same.
  rewrite signature_512 in Hsig512.
  pose proof (signature_400 init10) as Hsig400. fold fresh10 in Hsig400.
  pose proof (load_state_dict_same sd fresh10) as Hsame.
  fold model10 in Hsame.
  destruct (load_state_dict_spec sd fresh10) as [Hsd10 Hout10].
  fold model10 in Hsd10.
  (* what the load leaves under each name *)
  assert (Hentry : ∀ k p, sd_get (state_dict fresh10) k = Some p →
            (k = "output.bias" ∧ ∃ t, sd_get sd k = Some t
                                      ∧ shape t = shape p)
            ∨ (k ≠ "output.bias" ∧ ∃ t, sd_get sd k = Some t
                                        ∧ shape t ≠ shape p)).
  { intros k p Hp.
    pose proof (sig_get_signature (state_dict fresh10) k) as H400.
    pose proof (sig_get_signature sd k) as H512.
    rewrite Hsig400, Hp in H400. rewrite Hsig512 in H512.
    simpl in H400, H512.
    repeat case_bool_decide; subst; try discriminate;
      destruct (sd_get sd _) as [t|] eqn:Ht; try discriminate;
      simpl in H512; injection H400 as H400; injection H512 as H512;
      [right..|left]; (split; [done|]); exists t; split; try done;
      rewrite <-H400, <-H512; done. }
  split_and!.
  - unfold torch_load_any, fs7, torch_save_any. by rewrite lookup_insert_eq.
  - destruct (sd_get (state_dict fresh10) "output.weight") as [p|] eqn:Hp.
    2: { pose proof (sig_get_signature (state_dict fresh10) "output.weight")
           as H.
         rewrite Hsig400, Hp in H. discriminate. }
    destruct (Hentry _ _ Hp) as [[Hk _] | (_ & t & Ht & Hne)];
      [discriminate|].
    eexists. rewrite Hout10.
    apply (raise_or_return_inl _ _ _
             (SizeMismatch "output.weight" (shape t) (shape p))).
    apply mismatch_msgs_elem_of. exists t, p.
    split_and!; [by apply sd_get_elem_of|done..].
  - exists model10.
    assert (Hdesc : descriptor model10 = (784, 10, [400; 200; 100])%N)
      by (rewrite (descriptor_same _ _ Hsame); apply descriptor_Network).
    injection Hdesc as Hin Hout Hhid.
    split_and!.
    + rewrite (load_checkpoint_any_record init13 fs11 "checkpoint.pth"
                 (checkpoint model10))
        by (unfold fs11, torch_save_any; apply lookup_insert_eq).
      apply (load_saved_model init13 model10 "checkpoint.pth" ∅);
        [|done..].
      eapply wf_model_same; [exact Hsame|apply Network_wf].
    + apply layers_same_inv in Hsame as [Hh Ho].
      unfold layers. rewrite map_app.
      rewrite (features_same _ _ Hh). simpl. unfold features at 4.
      destruct Ho as (-> & -> & _). done.
    + rewrite Hsd10, sd_get_load_entry.
      destruct (sd_get (state_dict fresh10) "output.bias") as [p|] eqn:Hp;
        [by eexists|].
      pose proof (sig_get_signature (state_dict fresh10) "output.bias") as H.
      rewrite Hsig400, Hp in H. discriminate.
    + rewrite Hsd10, sd_get_load_entry.
      destruct (sd_get (state_dict fresh10) "output.bias") as [p|] eqn:Hp.
      * destruct (Hentry _ _ Hp) as [(_ & t & Ht & Hs) | [Hk _]]; [|done].
        rewrite Ht.
        change (Some (load_entry sd ("output.bias", p)).2 = Some t).
        f_equal. by apply load_entry_match.
      * pose proof (sig_get_signature (state_dict fresh10) "output.bias")
          as H.
        rewrite Hsig400, Hp in H. discriminate.
    + intros k Hk. rewrite Hsd10, sd_get_load_entry.
      destruct (sd_get (state_dict fresh10) k) as [p|] eqn:Hp; [|done].
      destruct (Hentry _ _ Hp) as [[Hk' _] | (_ & t & Ht & Hne)]; [done|].
      change (Some (load_entry sd (k, p)).2 = Some p).
      f_equal. by apply (load_entry_mismatch sd k p t).
Qed.

(** * The training loop *)

Section loop_facts.

Context {G P B L : Type}.
Context (gzero : G) (gadd : G → G → G).
Context (grad_loss : P → B → G) (update : P → G → P).
Context (loss : P → B → L).
Context (lzero : L) (ladd : L → L → L) (ldiv : L → nat → L).

#[local] Abbreviation epochs_from :=
  (run_epochs gzero gadd grad_loss update loss lzero ladd ldiv).

Lemma params_pass_reset (st : TrainState) (b : B) :
  (∀ g, gadd gzero g = g) →
  params (training_pass gzero gadd grad_loss update true st b)
  = update (params st) (grad_loss (params st) b).
Proof.
  intros Hzero. unfold training_pass, step, before_step, backward, zero_grad.
  simpl. destruct (grad st); simpl; [by rewrite Hzero|done].
Qed.

Lemma params_fold_pass (bs : list B) (acc : TrainState * L) :
  (∀ g, gadd gzero g = g) →
  params
    (fold_left (batch_pass gzero gadd grad_loss update loss ladd) bs acc).1
  = descent grad_loss update (params acc.1) bs.
Proof.
  intros Hzero. revert acc. induction bs as [|b bs IH]; intros acc; [done|].
  cbn [fold_left]. rewrite IH. unfold descent, batch_pass.
  cbn [fold_left fst]. by rewrite params_pass_reset.
Qed.

Lemma descent_app (p : P) (bs1 bs2 : list B) :
  descent grad_loss update p (bs1 ++ bs2)
  = descent grad_loss update (descent grad_loss update p bs1) bs2.
Proof. unfold descent. apply fold_left_app. Qed.

Lemma run_epochs_ok (loader : Loader) (n e : nat) (st : TrainState)
    (printed : list L) :
  0 < loader_len loader →
  ∃ st' printed',
    epochs_from loader e n st printed = inr (st', printed')
    ∧ length printed' = length printed + n
    ∧ ((∀ g, gadd gzero g = g) →
       params st'
       = descent grad_loss update (params st)
           (concat (map (loader_iter loader) (seq e n)))).
Proof.
  intros Hlen. revert e st printed.
  induction n as [|n IH]; intros e st printed.
  - exists st, printed. split_and!; [done|simpl; lia|done].
  - simpl. unfold run_epoch.
    pose proof (params_fold_pass (loader_iter loader e) (st, lzero)) as Hp.
    destruct (fold_left _ (loader_iter loader e) (st, lzero))
      as [st1 running_loss].
    unfold mean_loss. destruct (decide (loader_len loader = 0)); [lia|].
    destruct (IH (S e) st1 (printed ++ [ldiv running_loss (loader_len loader)]))
      as (st' & printed' & Hrun & Hlength & Hparams).
    exists st', printed'. split_and!; [done| |].
    + rewrite Hlength, length_app. simpl. lia.
    + intros Hzero. specialize (Hp Hzero). specialize (Hparams Hzero).
      simpl in Hp. by rewrite descent_app, <-Hp, Hparams.
Qed.

End loop_facts.

(** X10: with a loader of at least one batch, the training loop raises
    nothing, prints one loss per epoch, and leaves the parameters that
    plain gradient descent reaches over all the batches of all the epochs
    in order, each step using the gradient of its own batch at the current
    parameters: neither the gradient nor the model is carried over wrongly
    from pass to pass or from epoch to epoch.  Adding to the zero gradient
    is taken to leave a gradient as it is. *)
Theorem X10_training_loop {G P B L : Type} (gzero : G) (gadd : G → G → G)
    (grad_loss : P → B → G) (update : P → G → P) (loss : P → B → L)
    (lzero : L) (ladd : L → L → L) (ldiv : L → nat → L)
    (loader : Loader) (epochs : nat) (st : TrainState) :
  (∀ g, gadd gzero g = g) → 0 < loader_len loader →
  ∃ st' printed,
    training_loop gzero gadd grad_loss update loss lzero ladd ldiv
      loader epochs st = inr (st', printed)
    ∧ length printed = epochs
    ∧ params st'
      = descent grad_loss update (params st) (all_batches loader epochs).
Proof.
  intros Hzero Hlen.
  destruct (run_epochs_ok gzero gadd grad_loss update loss lzero ladd ldiv
              loader epochs 0 st [] Hlen)
    as (st' & printed & Hrun & Hlength & Hparams).
  exists st', printed. split_and!; [done|done|by apply Hparams].
Qed.

Lemma X10_training_loop_witness :
  ∃ st' printed,
    training_loop 0%Z Z.add (λ p b, (2 * (p - b))%Z) Z.sub
      (λ p b, ((p - b) * (p - b))%Z) 0%Z Z.add (λ l n, (l / Z.of_nat n)%Z)
      (mkLoader 2 (λ e, [Z.of_nat e; 3%Z])) 5
      (mkTrainState 10%Z None) = inr (st', printed)
    ∧ length printed = 5
    ∧ params st'
      = descent (λ p b, (2 * (p - b))%Z) Z.sub 10%Z
          (all_batches (mkLoader 2 (λ e, [Z.of_nat e; 3%Z])) 5).
Proof.
  apply (X10_training_loop 0%Z Z.add (λ p b, (2 * (p - b))%Z) Z.sub
           (λ p b, ((p - b) * (p - b))%Z) 0%Z Z.add
           (λ l n, (l / Z.of_nat n)%Z)
           (mkLoader 2 (λ e, [Z.of_nat e; 3%Z])) 5
           (mkTrainState 10%Z None)).
  - reflexivity.
  - simpl. lia.
Defined.
